(** * Monster scanner of the HoMM3 map editor scripts

    A shallow embedding of the two scripts

      - [h3_map_editor-main/RajanHoAEditor_V1.py]  (module [V1])
      - [RajanHoAEditor.py]                        (module [Editor])

    Both load a map container into one byte buffer and scan it for the
    4-byte little-endian type tags of monster objects.  The buffer is a
    [list byte]; offsets are [nat]; decoded integers are [N]. *)

From Stdlib.Strings Require Import String Byte.
From Stdlib Require Import DecimalString List NArith ZArith Arith Lia Bool Sorted.
Import ListNotations.

(* ================================================================= *)
(** ** Python byte-string primitives *)

Definition bytes := list byte.

(** [data[a:b]] for non-negative bounds: the slice is clipped to the
    buffer, it never raises. *)
Definition slice (data : bytes) (a b : nat) : bytes :=
  firstn (b - a) (skipn a data).

(** [int.from_bytes(bs, byteorder='little')] *)
Fixpoint from_bytes_le (bs : bytes) : N :=
  match bs with
  | [] => 0
  | b :: rest => (Byte.to_N b + 256 * from_bytes_le rest)%N
  end.

Definition byte_of_N (n : N) : byte :=
  match Byte.of_N (n mod 256) with
  | Some b => b
  | None => x00
  end.

(** [n.to_bytes(len, byteorder='little')]; Python raises [OverflowError]
    when [n] does not fit, which none of the tags of the scripts does. *)
Fixpoint to_bytes_le (len : nat) (n : N) : bytes :=
  match len with
  | 0 => []
  | S len' => byte_of_N n :: to_bytes_le len' (n / 256)
  end.

(** [data.startswith(sub)] *)
Fixpoint starts_with (sub data : bytes) : bool :=
  match sub, data with
  | [], _ => true
  | _ :: _, [] => false
  | s :: sub', d :: data' => Byte.eqb s d && starts_with sub' data'
  end.

(** [sub] occurs in [data] at offset [p]. *)
Definition occurs_at (sub data : bytes) (p : nat) : bool :=
  (p <=? length data) && starts_with sub (skipn p data).

(** Search of [sub] in the suffix [rest] of the buffer, [i] being the
    offset of [rest]. *)
Fixpoint find_from (sub rest : bytes) (i : nat) : option nat :=
  if starts_with sub rest then Some i
  else match rest with
       | [] => None
       | _ :: rest' => find_from sub rest' (S i)
       end.

(** [data.find(sub, pos)] for [pos >= 0]: the lowest offset [>= pos] at
    which [sub] occurs; [None] stands for Python's [-1]. *)
Definition find (data sub : bytes) (pos : nat) : option nat :=
  if length data <? pos then None
  else find_from sub (skipn pos data) pos.

(* ================================================================= *)
(** ** The scan loop

    Every scan of the scripts has the shape
<<
      pos = 0
      while True:
          pos = data.find(tag, pos)
          if pos == -1:
              break
          try: <candidate at pos, may append to monsters>
          except Exception: ...
          pos += 1
>>
    [cand data pos] is the record the body appends at a match ([None]
    when it appends nothing).  The cursor strictly increases, so the
    loop runs at most [length data] bodies; [fuel] bounds the number of
    iterations, and [scan_loop_reaches_break] and [scan_loop_fuel] show
    that [S (length data)] is always enough. *)

Section ScanLoop.
Context {A : Type}.
Variable cand : bytes -> nat -> option A.
Variable tag : bytes.

Definition append (monsters : list A) (r : option A) : list A :=
  match r with
  | Some x => monsters ++ [x]
  | None => monsters
  end.

Fixpoint scan_loop (fuel : nat) (data : bytes) (pos : nat)
         (monsters : list A) : list A :=
  match fuel with
  | 0 => monsters
  | S fuel' =>
      match find data tag pos with
      | None => monsters
      | Some p => scan_loop fuel' data (S p) (append monsters (cand data p))
      end
  end.

Definition scan (data : bytes) (monsters : list A) : list A :=
  scan_loop (S (length data)) data 0 monsters.

(** The same loop, telling whether the [break] was reached: [None] when
    the fuel ran out first. *)
Fixpoint scan_loop_break (fuel : nat) (data : bytes) (pos : nat)
         (monsters : list A) : option (list A) :=
  match fuel with
  | 0 => None
  | S fuel' =>
      match find data tag pos with
      | None => Some monsters
      | Some p =>
          scan_loop_break fuel' data (S p) (append monsters (cand data p))
      end
  end.
End ScanLoop.

(** The offsets at which the loop evaluates a candidate. *)
Definition match_offsets (tag data : bytes) : list nat :=
  scan (fun _ p => Some p) tag data [].

(** The candidates a scan accepts, each with the offset of its match. *)
Definition scan_trace {A} (cand : bytes -> nat -> option A)
           (tag data : bytes) : list (nat * A) :=
  scan (fun d p => option_map (pair p) (cand d p)) tag data [].

(** All offsets of [data] (end included), ascending, at which [tag]
    occurs. *)
Definition occurrences (tag data : bytes) (from : nat) : list nat :=
  filter (occurs_at tag data) (seq from (S (length data) - from)).

Definition opt_list {A} (o : option A) : list A :=
  match o with Some x => [x] | None => [] end.

(* ================================================================= *)
(** ** Data model *)

(** Modelled from the spec: [data.objects] is not among the sources;
    [od.ID.Monster] is the object type of a concrete monster, 54, the
    value whose 4-byte encoding the scripts search for. *)
Definition ID_Monster : N := 54.

(** Modelled from the spec: [src.handler_08_objects] is not among the
    sources; the scans use one member of its [Disposition] enumeration,
    [Aggressive], with numeric code 2. *)
Module Disposition.
Definition Aggressive : N := 2.
End Disposition.

(** The dictionaries appended to [monsters]: a random monster has no
    ["subtype"] key. *)
Record MonsterRecord := {
  type : N;
  subtype : option N;
  quantity : N;
  disposition : N
}.

(** What the loader calls return for a path; [None] is a raised
    exception.  [can_write] tells whether [open(path, 'wb')] succeeds. *)
Record World := {
  gzip_read : string -> option bytes;   (* gzip_open(path, 'rb').read() *)
  raw_read : string -> option bytes;    (* open(path, 'rb').read() *)
  can_write : string -> bool
}.

(** Lines printed by the V1 script, by format string. *)
Inductive Line :=
| L_parsing (filename : string)   (* Parsing map file: {filename} *)
| L_gzip_error                    (* Error opening file as gzip: {e} *)
| L_no_monsters                   (* No monster objects found in the map file. *)
| L_monster_no (i : nat)          (* Monster #{i}: *)
| L_name (creature_name : string) (* Name: {creature_name} *)
| L_disposition_aggressive        (* Disposition: Aggressive *)
| L_blank
| L_updated                       (* Successfully updated the disposition ... *)
| L_error.                        (* Error: {e} *)

Definition monster_type_bytes : bytes := [x36; x00; x00; x00].

Definition random_monster_types : list N := [71; 72; 73; 74; 75; 162; 163; 164]%N.

(* ================================================================= *)
(** ** Candidate decoding *)

Section Candidates.
(** [cd.NAME], the creature-name table of [data.creatures], which is
    not among the sources. *)
Variable NAME : list string.

(** The body of the concrete-monster loop.  Its three copies differ in
    the lower bound [qmin] of the accepted quantity only:
    0 in [RajanHoAEditor_V1.py] (line 126), 0 in the gzip branch of
    [RajanHoAEditor.py] (line 146), 1 in its raw branch (line 255).
    Where the V1 script writes the literal 2 the other script writes
    [Disposition.Aggressive]. *)
Definition monster_candidate (qmin : N) (data : bytes) (pos : nat)
  : option MonsterRecord :=
  if pos + 6 <? length data then
    let subtype := from_bytes_le (slice data (pos + 4) (pos + 6)) in
    if pos + 8 <? length data then
      let quantity := from_bytes_le (slice data (pos + 6) (pos + 8)) in
      if ((0 <=? subtype) && (subtype <? N.of_nat (length NAME)) &&
          ((qmin <=? quantity) && (quantity <=? 1000)))%N
      then Some {| type := ID_Monster; subtype := Some subtype;
                   quantity := quantity; disposition := 2 |}
      else None
    else None
  else None.

(** The body of a random-monster loop; [qmin] is 1 in
    [RajanHoAEditor_V1.py] (line 161), 0 in the gzip branch of
    [RajanHoAEditor.py] (line 188), 1 in its raw branch (line 294). *)
Definition random_candidate (qmin : N) (monster_type : N)
           (data : bytes) (pos : nat) : option MonsterRecord :=
  if pos + 6 <? length data then
    let quantity := from_bytes_le (slice data (pos + 4) (pos + 6)) in
    if ((qmin <=? quantity) && (quantity <=? 1000))%N
    then Some {| type := monster_type; subtype := None;
                 quantity := quantity; disposition := 2 |}
    else None
  else None.

(** The two passes over one buffer: the concrete-monster scan, then
    one scan per random-monster type, all appending to [monsters]. *)
Definition scan_buffer (mcand : bytes -> nat -> option MonsterRecord)
           (rcand : N -> bytes -> nat -> option MonsterRecord)
           (data : bytes) : list MonsterRecord :=
  let monsters := [] in
  let monsters := scan mcand monster_type_bytes data monsters in
  fold_left
    (fun monsters monster_type =>
       scan (rcand monster_type) (to_bytes_le 4 monster_type) data monsters)
    random_monster_types monsters.

(** [cd.NAME[creature_id] if creature_id < len(cd.NAME) else "Unknown"]
    for a concrete monster, the random-monster label otherwise;
    [None] is the [KeyError] of a record without ["subtype"]. *)
Definition creature_name (monster : MonsterRecord) : option string :=
  if (type monster =? ID_Monster)%N then
    match subtype monster with
    | Some creature_id =>
        Some (if (creature_id <? N.of_nat (length NAME))%N
              then nth (N.to_nat creature_id) NAME ""%string
              else "Unknown"%string)
    | None => None
    end
  else
    Some ("Random Monster (Type " ++
          NilZero.string_of_uint (N.to_uint (type monster)) ++ ")")%string.

End Candidates.

(* ================================================================= *)
(** ** [h3_map_editor-main/RajanHoAEditor_V1.py] *)

Module V1.
Section Script.
Variable NAME : list string.
Variable w : World.

(** The two passes of [parse_map_file] (lines 96-171) over the loaded
    buffer. *)
Definition scan_monsters (data : bytes) : list MonsterRecord :=
  scan_buffer (monster_candidate NAME 0) (random_candidate 1) data.

(** [parse_map_file]: the printed lines, then the returned pair
    [(monsters, data)]; [data] is [None] when the gzip read raised. *)
Definition parse_map_file (filename : string)
  : list Line * (list MonsterRecord * option bytes) :=
  match gzip_read w filename with
  | None => ([L_gzip_error], ([], None))
  | Some data => ([], (scan_monsters data, Some data))
  end.

(** The loop of [GetMonsterProperty] over [enumerate(monster_objects, i)]. *)
Fixpoint print_monsters (i : nat) (monster_objects : list MonsterRecord)
  : list Line :=
  match monster_objects with
  | [] => []
  | monster :: rest =>
      L_monster_no i ::
      match creature_name NAME monster with
      | Some name =>
          L_name name :: L_disposition_aggressive :: L_blank ::
          print_monsters (S i) rest
      | None => [L_error]
      end
  end.

(** [GetMonsterProperty]: the lines it prints. *)
Definition GetMonsterProperty (filename : string) : list Line :=
  let '(out, (monster_objects, data)) := parse_map_file filename in
  match monster_objects with
  | [] => L_parsing filename :: out ++ [L_no_monsters]
  | _ :: _ => L_parsing filename :: out ++ print_monsters 1 monster_objects
  end.

Definition set_disposition (d : N) (monster : MonsterRecord) : MonsterRecord :=
  {| type := type monster; subtype := subtype monster;
     quantity := quantity monster; disposition := d |}.

(** [SetMonsterProperty]: the lines it prints and the files it writes,
    as (path, contents) pairs in the order of writing. *)
Definition SetMonsterProperty (filename : string)
  : list Line * list (string * bytes) :=
  let '(out, (monster_objects, data)) := parse_map_file filename in
  match monster_objects with
  | [] => (L_parsing filename :: out ++ [L_no_monsters], [])
  | _ :: _ =>
      let monster_objects := map (set_disposition 2) monster_objects in
      match data with
      | Some data =>
          if can_write w "Do2.h3m" then
            (L_parsing filename :: out ++ [L_updated], [("Do2.h3m"%string, data)])
          else (L_parsing filename :: out ++ [L_error], [])
      | None =>
          (* f.write(None) raises after the file was opened *)
          if can_write w "Do2.h3m" then
            (L_parsing filename :: out ++ [L_error], [("Do2.h3m"%string, [])])
          else (L_parsing filename :: out ++ [L_error], [])
      end
  end.
End Script.
End V1.

(* ================================================================= *)
(** ** [RajanHoAEditor.py] *)

Module Editor.
Section Script.
Variable NAME : list string.
Variable w : World.

(** The concrete-monster body of the gzip branch (lines 123-155): it
    also reads the stored disposition byte, for printing only. *)
Definition monster_candidate_gzip (data : bytes) (pos : nat)
  : option MonsterRecord :=
  if pos + 6 <? length data then
    let subtype := from_bytes_le (slice data (pos + 4) (pos + 6)) in
    if pos + 8 <? length data then
      let quantity := from_bytes_le (slice data (pos + 6) (pos + 8)) in
      let disposition := Disposition.Aggressive in
      let disp_value :=
        if pos + 19 <? length data then nth_error data (pos + 18) else None in
      if ((0 <=? subtype) && (subtype <? N.of_nat (length NAME)) &&
          ((0 <=? quantity) && (quantity <=? 1000)))%N
      then Some {| type := ID_Monster; subtype := Some subtype;
                   quantity := quantity;
                   disposition := Disposition.Aggressive |}
      else None
    else None
  else None.

(** The scan of the gzip branch (lines 109-201). *)
Definition scan_gzip (data : bytes) : list MonsterRecord :=
  scan_buffer monster_candidate_gzip (random_candidate 0) data.

(** The scan of the raw fallback branch (lines 225-307). *)
Definition scan_raw (data : bytes) : list MonsterRecord :=
  scan_buffer (monster_candidate NAME 1) (random_candidate 1) data.

(** [parse_map_file]: the returned list (its prints are left out). *)
Definition parse_map_file (filename : string) : list MonsterRecord :=
  match gzip_read w filename with
  | Some data => scan_gzip data
  | None =>
      match raw_read w filename with
      | Some data => scan_raw data
      | None => []
      end
  end.
End Script.
End Editor.

(* ================================================================= *)
(** ** Notions used to state the properties *)

(** The 4-byte tags of the nine signatures, in scanning order. *)
Definition random_tag (monster_type : N) : bytes := to_bytes_le 4 monster_type.

Definition signature_tags : list bytes :=
  monster_type_bytes :: map random_tag random_monster_types.

(** The accepted candidates of each signature with their match offsets,
    one group per signature, in scanning order. *)
Definition signature_groups (mcand : bytes -> nat -> option MonsterRecord)
           (rcand : N -> bytes -> nat -> option MonsterRecord)
           (data : bytes) : list (list (nat * MonsterRecord)) :=
  scan_trace mcand monster_type_bytes data ::
  map (fun monster_type => scan_trace (rcand monster_type)
                                      (random_tag monster_type) data)
      random_monster_types.


(** The disposition offsets of the accepted candidates of a buffer:
    [p + 18] for a concrete monster matched at [p], [p + 14] for a
    random monster. *)
Definition disposition_offsets (mcand : bytes -> nat -> option MonsterRecord)
           (rcand : N -> bytes -> nat -> option MonsterRecord)
           (data : bytes) : list nat :=
  map (fun e => fst e + 18) (scan_trace mcand monster_type_bytes data) ++
  flat_map (fun monster_type =>
              map (fun e => fst e + 14)
                  (scan_trace (rcand monster_type) (random_tag monster_type) data))
           random_monster_types.

(** The fields the concrete-monster body decodes at a match offset. *)
Definition decoded_creature_id (data : bytes) (p : nat) : N :=
  from_bytes_le (slice data (p + 4) (p + 6)).

Definition decoded_quantity (data : bytes) (p : nat) : N :=
  from_bytes_le (slice data (p + 6) (p + 8)).

(** The entries of a trace matched at offset [p]. *)
Definition at_offset {A} (p : nat) (trace : list (nat * A)) : list (nat * A) :=
  filter (fun e => fst e =? p) trace.

(* ================================================================= *)
(** ** Sample inputs *)

Module Sample.
(** A three-entry creature-name table. *)
Definition names : list string :=
  ["Pikeman"; "Halberdier"; "Archer"]%string.

(** The scenario of the specification: tag 54, creature 0, quantity
    25, ten filler bytes and a stored disposition byte 0 at offset 18. *)
Definition pikemen : bytes :=
  [x36; x00; x00; x00;  x00; x00;  x19; x00;
   xaa; xaa; xaa; xaa; xaa; xaa; xaa; xaa; xaa; xaa;  x00].

(** A concrete-monster tag whose quantity field ends the buffer. *)
Definition truncated : bytes :=
  [x36; x00; x00; x00;  x00; x00;  x05; x00].

(** Creature id 3, the length of [names]. *)
Definition unknown_creature : bytes :=
  [x36; x00; x00; x00;  x03; x00;  x19; x00;
   xaa; xaa; xaa; xaa; xaa; xaa; xaa; xaa; xaa; xaa;  x00].

(** A well-formed concrete monster of quantity 0. *)
Definition empty_stack : bytes :=
  [x36; x00; x00; x00;  x01; x00;  x00; x00;
   xaa; xaa; xaa; xaa; xaa; xaa; xaa; xaa; xaa; xaa;  x00].

(** A random monster (type 71, quantity 12) at offset 0, then a
    concrete monster at offset 7. *)
Definition random_then_concrete : bytes :=
  [x47; x00; x00; x00;  x0c; x00;  xaa;
   x36; x00; x00; x00;  x02; x00;  x07; x00;  xaa].

(** A random monster of type 72 at offset 0, then one of type 71 at
    offset 7. *)
Definition later_type_first : bytes :=
  [x48; x00; x00; x00;  x05; x00;  xaa;
   x47; x00; x00; x00;  x0c; x00;  xaa].

(** A buffer without any signature. *)
Definition no_signature : bytes :=
  [x01; x02; x03; x04; x05; x06; x07; x08; x09; x0a].

(** A world whose only gzip container is [path], with payload
    [data]; no path opens as a raw file here. *)
Definition gzip_world (path : string) (data : bytes) : World :=
  {| gzip_read := fun f => if String.eqb f path then Some data else None;
     raw_read := fun _ => None;
     can_write := fun _ => true |}.

(** A world whose only file is [path], not a gzip container, with
    raw contents [data]. *)
Definition raw_world (path : string) (data : bytes) : World :=
  {| gzip_read := fun _ => None;
     raw_read := fun f => if String.eqb f path then Some data else None;
     can_write := fun _ => true |}.

(** A world in which no file can be read. *)
Definition empty_world : World :=
  {| gzip_read := fun _ => None;
     raw_read := fun _ => None;
     can_write := fun _ => true |}.
End Sample.

(* ================================================================= *)
(** ** The helper functions of both scripts

    [is_monster_type], [get_disposition_name] and [get_creature_level]
    are defined alike in [RajanHoAEditor_V1.py] and [RajanHoAEditor.py]
    (lines 21-83 of each). *)

(** Modelled from the spec: [data.objects] is not among the sources; the
    members of [od.ID] that [is_monster_type] lists are the object types
    of the nine signatures, 54 for [Monster] and 71, 72, 73, 74, 75,
    162, 163, 164 for [Random_Monster] to [Random_Monster_7]. *)
Module ObjectID.
Definition Monster : N := ID_Monster.
Definition Random_Monster : N := 71.
Definition Random_Monster_1 : N := 72.
Definition Random_Monster_2 : N := 73.
Definition Random_Monster_3 : N := 74.
Definition Random_Monster_4 : N := 75.
Definition Random_Monster_5 : N := 162.
Definition Random_Monster_6 : N := 163.
Definition Random_Monster_7 : N := 164.
End ObjectID.

(** [is_monster_type]: [obj_type in monster_types]. *)
Definition is_monster_type (obj_type : N) : bool :=
  let monster_types :=
    [ObjectID.Monster;
     ObjectID.Random_Monster;
     ObjectID.Random_Monster_1;
     ObjectID.Random_Monster_2;
     ObjectID.Random_Monster_3;
     ObjectID.Random_Monster_4;
     ObjectID.Random_Monster_5;
     ObjectID.Random_Monster_6;
     ObjectID.Random_Monster_7] in
  existsb (fun t => (obj_type =? t)%N) monster_types.

(** [d.get(key, default)] for a dictionary written as a literal with the
    given items: of two items with equal keys the later one stands. *)
Fixpoint dict_get {V : Type} (items : list (N * V)) (key : N) (default : V) : V :=
  match items with
  | [] => default
  | (k, v) :: rest => dict_get rest key (if (k =? key)%N then v else default)
  end.

Section DispositionNames.
(** The numeric codes of the members of [Disposition] other than
    [Aggressive]; [src.handler_08_objects] is not among the sources. *)
Variables Compliant Friendly Hostile Savage Precise : N.

(** [get_disposition_name] *)
Definition get_disposition_name (disposition_value : N) : string :=
  let dispositions :=
    [(Compliant, "Compliant");
     (Friendly, "Friendly");
     (Disposition.Aggressive, "Aggressive");
     (Hostile, "Hostile");
     (Savage, "Savage");
     (Precise, "Precise")]%string in
  dict_get dispositions disposition_value "Unknown"%string.
End DispositionNames.

Section CreatureLevel.
(** [cd.AI_VALUE], the table of AI values of [data.creatures], which is
    not among the sources. *)
Variable AI_VALUE : list Z.

Local Open Scope Z_scope.

(** [get_creature_level]; [//] is floor division. *)
Definition get_creature_level (creature_id : Z) : Z :=
  if creature_id <? 14 then (creature_id / 2) + 1
  else if creature_id <? 28 then ((creature_id - 14) / 2) + 1
  else if creature_id <? 42 then ((creature_id - 28) / 2) + 1
  else if creature_id <? 56 then ((creature_id - 42) / 2) + 1
  else if creature_id <? 70 then ((creature_id - 56) / 2) + 1
  else if creature_id <? 84 then ((creature_id - 70) / 2) + 1
  else if creature_id <? 98 then ((creature_id - 84) / 2) + 1
  else if creature_id <? 112 then ((creature_id - 98) / 2) + 1
  else
    let ai_value :=
      if creature_id <? Z.of_nat (length AI_VALUE)
      then nth (Z.to_nat creature_id) AI_VALUE 0
      else 0 in
    if ai_value <? 100 then 1
    else if ai_value <? 200 then 2
    else if ai_value <? 400 then 3
    else if ai_value <? 800 then 4
    else if ai_value <? 1600 then 5
    else if ai_value <? 3200 then 6
    else 7.
End CreatureLevel.

(* ================================================================= *)
(** ** [main] of [RajanHoAEditor.py] *)

Module EditorMain.

(** What [main] prints as the level of a monster: a number, or the word
    [Random]. *)
Inductive Level :=
| Level_of (level : Z)
| Level_Random.

(** The lines [main] prints itself, by format string; the lines
    [parse_map_file] prints in between are left out. *)
Inductive Line :=
| P_title                         (* RajanHoAEditor.py - Heroes of ... Analyzer *)
| P_rule                          (* ===...=== *)
| P_no_monsters                   (* No monster objects found in the map file. *)
| P_representative                (* Using representative monster data ... *)
| P_total (n : nat)               (* Total monster objects found: {n} *)
| P_monster_no (i : nat)          (* Monster #{i}: *)
| P_name (creature_name : string) (* Name: {creature_name} *)
| P_level (level : Level)         (* Level: {level} *)
| P_count (quantity : N)          (* Count: {quantity} *)
| P_disposition (name : string)   (* Disposition: {name} *)
| P_blank
| P_error.                        (* Error: {e} *)

Section Script.
Variable NAME : list string.
Variable AI_VALUE : list Z.
Variables Compliant Friendly Hostile Savage Precise : N.
(** The members of [cd.ID] named by the representative data. *)
Variables Pikeman Archer Griffin Swordsman Angel Black_Dragon : N.
Variable w : World.

Definition concrete (creature : N) (quantity : N) : MonsterRecord :=
  {| type := ObjectID.Monster; subtype := Some creature;
     quantity := quantity; disposition := Disposition.Aggressive |}.

(** The representative monster data of lines 331-373. *)
Definition representative : list MonsterRecord :=
  [concrete Pikeman 25;
   concrete Archer 18;
   concrete Griffin 10;
   concrete Swordsman 15;
   concrete Angel 5;
   {| type := ObjectID.Random_Monster; subtype := None;
      quantity := 12; disposition := Disposition.Aggressive |};
   concrete Black_Dragon 3].

(** The name and the level of one monster (lines 383-389); [None] is the
    [KeyError] of a record of type [Monster] without ["subtype"]. *)
Definition name_and_level (monster : MonsterRecord) : option (string * Level) :=
  if (type monster =? ObjectID.Monster)%N then
    match subtype monster with
    | Some creature_id =>
        let creature_name :=
          if (creature_id <? N.of_nat (length NAME))%N
          then nth (N.to_nat creature_id) NAME ""%string
          else "Unknown"%string in
        let level := get_creature_level AI_VALUE (Z.of_N creature_id) in
        Some (creature_name, Level_of level)
    | None => None
    end
  else
    Some (("Random Monster (Type " ++
           NilZero.string_of_uint (N.to_uint (type monster)) ++ ")")%string,
          Level_Random).

(** The loop over [enumerate(monster_objects, i)] (lines 379-395); an
    exception ends it with the line of the handler. *)
Fixpoint print_monsters (i : nat) (monster_objects : list MonsterRecord)
  : list Line :=
  match monster_objects with
  | [] => []
  | monster :: rest =>
      P_monster_no i ::
      match name_and_level monster with
      | Some (creature_name, level) =>
          P_name creature_name ::
          P_level level ::
          P_count (quantity monster) ::
          P_disposition
            (get_disposition_name Compliant Friendly Hostile Savage Precise
                                  (disposition monster)) ::
          P_blank ::
          print_monsters (S i) rest
      | None => [P_error]
      end
  end.

(** The list [main] goes through: what [parse_map_file] found, or the
    representative data when it found nothing. *)
Definition monsters_shown : list MonsterRecord :=
  match Editor.parse_map_file NAME w "Do.h3m" with
  | [] => representative
  | monster_objects => monster_objects
  end.

(** [main]: the lines it prints. *)
Definition main : list Line :=
  let monster_objects := Editor.parse_map_file NAME w "Do.h3m" in
  match monster_objects with
  | [] =>
      let monster_objects := representative in
      P_title :: P_rule :: P_no_monsters :: P_representative ::
      P_total (length monster_objects) :: print_monsters 1 monster_objects
  | _ :: _ =>
      P_title :: P_rule ::
      P_total (length monster_objects) :: print_monsters 1 monster_objects
  end.
End Script.
End EditorMain.

(* ================================================================= *)
(** ** Further notions used to state properties *)

(** The shape of a record a scan may return, for the lower bounds [mq]
    and [rq] that the scan puts on the quantity of a concrete and of a
    random monster. *)
Definition record_ok (NAME : list string) (mq rq : N) (r : MonsterRecord) : Prop :=
  (quantity r <= 1000)%N /\
  ((type r = ID_Monster /\ (mq <= quantity r)%N /\
    exists creature_id,
      subtype r = Some creature_id /\
      (creature_id < N.of_nat (length NAME))%N) \/
   (In (type r) random_monster_types /\ (rq <= quantity r)%N /\
    subtype r = None)).

(** The name under which a returned record is shown: the entry of the
    name table for a record with a creature id, the label of its type
    otherwise. *)
Definition display_name (NAME : list string) (r : MonsterRecord) : string :=
  match subtype r with
  | Some creature_id => nth (N.to_nat creature_id) NAME ""%string
  | None =>
      ("Random Monster (Type " ++
       NilZero.string_of_uint (N.to_uint (type r)) ++ ")")%string
  end.

(** The four lines [GetMonsterProperty] prints for the [i]-th record. *)
Definition monster_block (NAME : list string) (entry : nat * MonsterRecord)
  : list Line :=
  [L_monster_no (fst entry); L_name (display_name NAME (snd entry));
   L_disposition_aggressive; L_blank].

(** The records of a list with their numbers, counted from 1. *)
Definition numbered {A} (l : list A) : list (nat * A) :=
  combine (seq 1 (length l)) l.

Definition is_monster_no (line : EditorMain.Line) : bool :=
  match line with
  | EditorMain.P_monster_no _ => true
  | _ => false
  end.



(** A path without its leading [./]: both spellings denote the same file
    of the working directory. *)
Definition without_dot_slash (path : string) : string :=
  if String.prefix "./" path
  then String.substring 2 (String.length path - 2) path
  else path.

(** The offsets of all accepted candidates of a buffer, group after
    group. *)
Definition accepted_offsets (mcand : bytes -> nat -> option MonsterRecord)
           (rcand : N -> bytes -> nat -> option MonsterRecord)
           (data : bytes) : list nat :=
  map fst (concat (signature_groups mcand rcand data)).

(* ================================================================= *)
(** ** Facts about [find] *)

Lemma starts_with_length sub data :
  starts_with sub data = true -> length sub <= length data.
Proof.
  revert data; induction sub as [|s sub IH]; intros [|d data]; simpl;
    try lia; try discriminate.
  intros H. apply andb_prop in H as [_ H]. apply IH in H. lia.
Qed.

Lemma find_from_some sub rest i p :
  find_from sub rest i = Some p ->
  i <= p /\ p - i <= length rest /\
  starts_with sub (skipn (p - i) rest) = true /\
  forall j, i <= j < p -> starts_with sub (skipn (j - i) rest) = false.
Proof.
  revert i; induction rest as [|d rest IH]; intros i; simpl.
  - destruct (starts_with sub []) eqn:E; [|discriminate].
    intros [= <-]. rewrite Nat.sub_diag. simpl. repeat split; try lia; auto.
  - destruct (starts_with sub (d :: rest)) eqn:E.
    + intros [= <-]. rewrite Nat.sub_diag. simpl. repeat split; try lia; auto.
    + intros H. apply IH in H as (H1 & H2 & H3 & H4).
      repeat split; try lia.
      * replace (p - i) with (S (p - S i)) by lia. exact H3.
      * intros j Hj. destruct (Nat.eq_dec j i) as [->|Hne].
        -- rewrite Nat.sub_diag. exact E.
        -- replace (j - i) with (S (j - S i)) by lia. apply H4. lia.
Qed.

Lemma find_from_none sub rest i :
  find_from sub rest i = None ->
  forall j, j <= length rest -> starts_with sub (skipn j rest) = false.
Proof.
  revert i; induction rest as [|d rest IH]; intros i; simpl.
  - destruct (starts_with sub []) eqn:E; [discriminate|].
    intros _ j Hj. assert (j = 0) as -> by lia. exact E.
  - destruct (starts_with sub (d :: rest)) eqn:E; [discriminate|].
    intros H [|j] Hj; [exact E|]. simpl. eapply IH; eauto. lia.
Qed.

Lemma skipn_skipn_add {A} (l : list A) a b :
  skipn a (skipn b l) = skipn (b + a) l.
Proof.
  revert l; induction b as [|b IH]; intros l; simpl; auto.
  destruct l; simpl; auto. now rewrite skipn_nil.
Qed.

(** [find] returns the first occurrence at or after the cursor. *)
Lemma find_some data sub pos p :
  find data sub pos = Some p ->
  pos <= p /\ occurs_at sub data p = true /\
  forall j, pos <= j < p -> occurs_at sub data j = false.
Proof.
  unfold find, occurs_at. destruct (Nat.ltb_spec (length data) pos); [discriminate|].
  intros Hf. apply find_from_some in Hf as (H1 & H2 & H3 & H4).
  rewrite length_skipn in H2.
  rewrite skipn_skipn_add in H3. replace (pos + (p - pos)) with p in H3 by lia.
  repeat split; auto.
  - rewrite H3. apply andb_true_iff; split; auto. apply Nat.leb_le. lia.
  - intros j Hj. specialize (H4 j Hj). rewrite skipn_skipn_add in H4.
    replace (pos + (j - pos)) with j in H4 by lia. rewrite H4. apply andb_false_r.
Qed.

Lemma find_none data sub pos :
  find data sub pos = None ->
  forall j, pos <= j -> occurs_at sub data j = false.
Proof.
  unfold find, occurs_at. intros Hf j Hj.
  destruct (Nat.leb_spec j (length data)); [|reflexivity]. simpl.
  destruct (Nat.ltb_spec (length data) pos); [lia|].
  pose proof (find_from_none _ _ _ Hf (j - pos)) as Hn.
  rewrite length_skipn, skipn_skipn_add in Hn.
  replace (pos + (j - pos)) with j in Hn by lia. apply Hn. lia.
Qed.

(** An occurrence of a non-empty tag lies strictly inside the buffer. *)
Lemma occurs_at_bound sub data p :
  sub <> [] -> occurs_at sub data p = true -> p + length sub <= length data.
Proof.
  unfold occurs_at. intros Hne H. apply andb_prop in H as [H1 H2].
  apply Nat.leb_le in H1. apply starts_with_length in H2.
  rewrite length_skipn in H2.
  destruct sub; [congruence|]. simpl in *. lia.
Qed.

(* ================================================================= *)
(** ** Facts about the scan loop *)

Lemma occurrences_none tag data pos :
  find data tag pos = None -> occurrences tag data pos = [].
Proof.
  intros Hf. unfold occurrences.
  induction (seq pos (S (length data) - pos)) as [|j l IH] eqn:E in pos, Hf |- *.
  - reflexivity.
  - assert (Hin : In j (seq pos (S (length data) - pos))) by (rewrite E; now left).
    apply in_seq in Hin. simpl.
    rewrite (find_none _ _ _ Hf j) by lia.
    destruct (S (length data) - pos) as [|n] eqn:En; [discriminate|].
    simpl in E. injection E as E1 E2. subst j.
    apply (IH (S pos)).
    + destruct (find data tag (S pos)) as [q|] eqn:Eq; [|reflexivity].
      apply find_some in Eq as (Hq1 & Hq2 & _).
      rewrite (find_none _ _ _ Hf q) in Hq2 by lia. discriminate.
    + rewrite <- E2. f_equal. lia.
Qed.

Lemma filter_seq_false (f : nat -> bool) a n :
  (forall j, a <= j < a + n -> f j = false) -> filter f (seq a n) = [].
Proof.
  revert a; induction n as [|n IH]; intros a H; simpl; [reflexivity|].
  rewrite H by lia. apply IH. intros j Hj. apply H. lia.
Qed.

Lemma occurrences_some tag data pos p :
  tag <> [] -> find data tag pos = Some p ->
  occurrences tag data pos = p :: occurrences tag data (S p).
Proof.
  intros Hne Hf. apply find_some in Hf as (H1 & H2 & H3).
  pose proof (occurs_at_bound _ _ _ Hne H2) as Hb.
  assert (0 < length tag) by (destruct tag; [congruence|simpl; lia]).
  unfold occurrences.
  replace (S (length data) - pos)
    with ((p - pos) + S (S (length data) - S p)) by lia.
  rewrite seq_app, filter_app.
  rewrite filter_seq_false by (intros j Hj; apply H3; lia).
  replace (pos + (p - pos)) with p by lia. simpl. now rewrite H2.
Qed.

Section ScanLoopFacts.
Context {A : Type}.
Variable cand : bytes -> nat -> option A.
Variable tag : bytes.
Hypothesis tag_nonempty : tag <> [].

Lemma append_opt_list (monsters : list A) r :
  append monsters r = monsters ++ opt_list r.
Proof. destruct r; simpl; [reflexivity|now rewrite app_nil_r]. Qed.

(** With enough fuel the loop evaluates the candidate at every
    occurrence of the tag from the cursor on, in ascending order, and
    appends the accepted ones. *)
Lemma scan_loop_occurrences fuel data pos monsters :
  length data < fuel + pos ->
  scan_loop cand tag fuel data pos monsters =
  monsters ++ flat_map (fun p => opt_list (cand data p))
                       (occurrences tag data pos).
Proof.
  revert pos monsters; induction fuel as [|fuel IH]; intros pos monsters Hfuel.
  - simpl. unfold occurrences.
    replace (S (length data) - pos) with 0 by lia. simpl.
    now rewrite app_nil_r.
  - simpl. destruct (find data tag pos) as [p|] eqn:Hf.
    + rewrite (occurrences_some _ _ _ _ tag_nonempty Hf). simpl.
      pose proof (find_some _ _ _ _ Hf) as (H1 & _ & _).
      rewrite IH by lia. rewrite append_opt_list. now rewrite app_assoc.
    + rewrite (occurrences_none _ _ _ Hf). simpl. now rewrite app_nil_r.
Qed.

(** With that much fuel the loop ends at its [break]. *)
Lemma scan_loop_reaches_break fuel data pos monsters :
  0 < fuel -> length data < fuel + pos ->
  scan_loop_break cand tag fuel data pos monsters =
  Some (scan_loop cand tag fuel data pos monsters).
Proof.
  revert pos monsters; induction fuel as [|fuel IH]; intros pos monsters H0 Hfuel.
  - lia.
  - simpl. destruct (find data tag pos) as [p|] eqn:Hf; [|reflexivity].
    apply find_some in Hf as (H1 & H2 & _).
    pose proof (occurs_at_bound _ _ _ tag_nonempty H2) as Hb.
    assert (0 < length tag) by (destruct tag; [congruence|simpl; lia]).
    apply IH; lia.
Qed.

Lemma scan_reaches_break data monsters :
  scan_loop_break cand tag (S (length data)) data 0 monsters =
  Some (scan cand tag data monsters).
Proof. apply scan_loop_reaches_break; lia. Qed.

(** The loop's result does not depend on the fuel once it exceeds the
    part of the buffer that is left. *)
Lemma scan_loop_fuel fuel fuel' data pos monsters :
  length data < fuel + pos -> length data < fuel' + pos ->
  scan_loop cand tag fuel data pos monsters =
  scan_loop cand tag fuel' data pos monsters.
Proof.
  intros H H'. now rewrite !scan_loop_occurrences.
Qed.

Lemma scan_occurrences data monsters :
  scan cand tag data monsters =
  monsters ++ flat_map (fun p => opt_list (cand data p))
                       (occurrences tag data 0).
Proof. unfold scan. apply scan_loop_occurrences. lia. Qed.

(** One iteration: the candidate at the match is evaluated and the
    scan goes on one byte after the match. *)
Lemma scan_loop_step fuel data pos p monsters :
  find data tag pos = Some p ->
  scan_loop cand tag (S fuel) data pos monsters =
  scan_loop cand tag fuel data (S p) (append monsters (cand data p)).
Proof. intros Hf. simpl. now rewrite Hf. Qed.
End ScanLoopFacts.

Lemma match_offsets_occurrences tag data :
  tag <> [] -> match_offsets tag data = occurrences tag data 0.
Proof.
  intros Hne. unfold match_offsets. rewrite scan_occurrences by assumption.
  simpl. induction (occurrences tag data 0); simpl; congruence.
Qed.

Lemma scan_trace_occurrences {A} (cand : bytes -> nat -> option A) tag data :
  tag <> [] ->
  scan_trace cand tag data =
  flat_map (fun p => opt_list (option_map (pair p) (cand data p)))
           (occurrences tag data 0).
Proof.
  intros Hne. unfold scan_trace. now rewrite scan_occurrences.
Qed.

(** The records of a scan are those of its trace, in the same order. *)
Lemma scan_trace_records {A} (cand : bytes -> nat -> option A) tag data monsters :
  tag <> [] ->
  scan cand tag data monsters = monsters ++ map snd (scan_trace cand tag data).
Proof.
  intros Hne. rewrite scan_occurrences, scan_trace_occurrences by assumption.
  f_equal. induction (occurrences tag data 0) as [|p l IH]; simpl; [reflexivity|].
  rewrite map_app, IH. now destruct (cand data p).
Qed.

Lemma occurrences_sorted tag data pos :
  StronglySorted lt (occurrences tag data pos).
Proof.
  unfold occurrences.
  generalize (S (length data) - pos) as n. intros n; revert pos.
  induction n as [|n IH]; intros pos; simpl; [constructor|].
  assert (Hlb : Forall (lt pos) (filter (occurs_at tag data) (seq (S pos) n))).
  { apply Forall_forall. intros x Hx. apply filter_In in Hx as [Hx _].
    apply in_seq in Hx. lia. }
  destruct (occurs_at tag data pos); [constructor; auto|apply IH].
Qed.

Lemma occurrences_In tag data pos p :
  In p (occurrences tag data pos) <->
  pos <= p /\ occurs_at tag data p = true.
Proof.
  unfold occurrences. rewrite filter_In, in_seq. split.
  - intros [H1 H2]; split; [lia|assumption].
  - intros [H1 H2]; split; [|assumption].
    unfold occurs_at in H2. apply andb_prop in H2 as [H2 _].
    apply Nat.leb_le in H2. lia.
Qed.

(** The offsets of a trace are strictly increasing. *)
Lemma scan_trace_sorted {A} (cand : bytes -> nat -> option A) tag data :
  tag <> [] -> StronglySorted lt (map fst (scan_trace cand tag data)).
Proof.
  intros Hne. rewrite scan_trace_occurrences by assumption.
  pose proof (occurrences_sorted tag data 0) as Hs.
  induction Hs as [|p l Hs IH Hall]; simpl; [constructor|].
  rewrite map_app. destruct (cand data p) as [r|]; simpl; [|exact IH].
  constructor; [exact IH|].
  apply Forall_forall. intros x Hx. apply in_map_iff in Hx as ((q & r') & <- & Hq).
  apply in_flat_map in Hq as (q' & Hq' & Hin).
  destruct (cand data q'); simpl in Hin; [|contradiction].
  destruct Hin as [[= <- <-]|[]]. simpl.
  rewrite Forall_forall in Hall. now apply Hall.
Qed.

(** A trace entry at offset [p] is the accepted candidate at [p]. *)
Lemma scan_trace_In {A} (cand : bytes -> nat -> option A) tag data p r :
  tag <> [] ->
  In (p, r) (scan_trace cand tag data) <->
  occurs_at tag data p = true /\ cand data p = Some r.
Proof.
  intros Hne. rewrite scan_trace_occurrences by assumption.
  rewrite in_flat_map. split.
  - intros (q & Hq & Hin). apply occurrences_In in Hq as [_ Hq].
    destruct (cand data q) eqn:E; simpl in Hin; [|contradiction].
    destruct Hin as [[= <- <-]|[]]. auto.
  - intros [Ho Hc]. exists p. split.
    + apply occurrences_In. split; [lia|assumption].
    + rewrite Hc. simpl. now left.
Qed.


(* ================================================================= *)
(** ** Facts about the candidate decoders and the two passes *)

Lemma monster_tag_nonempty : monster_type_bytes <> [].
Proof. unfold monster_type_bytes. discriminate. Qed.

Lemma random_tag_nonempty monster_type : random_tag monster_type <> [].
Proof. unfold random_tag. simpl. discriminate. Qed.

Ltac reject :=
  split; [simpl; rewrite ?andb_false_r; simpl; discriminate
         | intros; repeat match goal with H : _ /\ _ |- _ => destruct H end; lia].

Lemma monster_candidate_Some NAME qmin data p r :
  monster_candidate NAME qmin data p = Some r <->
  p + 8 < length data /\
  (decoded_creature_id data p < N.of_nat (length NAME))%N /\
  (qmin <= decoded_quantity data p <= 1000)%N /\
  r = {| type := ID_Monster; subtype := Some (decoded_creature_id data p);
         quantity := decoded_quantity data p; disposition := 2 |}.
Proof.
  unfold monster_candidate.
  fold (decoded_creature_id data p). fold (decoded_quantity data p).
  destruct (Nat.ltb_spec (p + 6) (length data)); [|reject].
  destruct (Nat.ltb_spec (p + 8) (length data)); [|reject].
  replace (0 <=? decoded_creature_id data p)%N with true
    by (symmetry; apply N.leb_le, N.le_0_l).
  destruct (N.ltb_spec (decoded_creature_id data p) (N.of_nat (length NAME)));
    [|reject].
  destruct (N.leb_spec qmin (decoded_quantity data p)); [|reject].
  destruct (N.leb_spec (decoded_quantity data p) 1000); [|reject].
  simpl. split.
  - intros [= <-]. repeat split; auto.
  - intros (_ & _ & _ & ->). reflexivity.
Qed.

(** The gzip branch of [RajanHoAEditor.py] decodes a concrete monster as
    the other copies do with lower bound 0. *)
Lemma monster_candidate_gzip_eq NAME data p :
  Editor.monster_candidate_gzip NAME data p = monster_candidate NAME 0 data p.
Proof. reflexivity. Qed.

Lemma random_candidate_Some qmin monster_type data p r :
  random_candidate qmin monster_type data p = Some r <->
  p + 6 < length data /\
  (qmin <= decoded_creature_id data p <= 1000)%N /\
  r = {| type := monster_type; subtype := None;
         quantity := decoded_creature_id data p; disposition := 2 |}.
Proof.
  unfold random_candidate. fold (decoded_creature_id data p).
  destruct (Nat.ltb_spec (p + 6) (length data)); [|reject].
  destruct (N.leb_spec qmin (decoded_creature_id data p)); [|reject].
  destruct (N.leb_spec (decoded_creature_id data p) 1000); [|reject].
  simpl. split.
  - intros [= <-]. repeat split; auto.
  - intros (_ & _ & ->). reflexivity.
Qed.

Lemma random_pass_groups (rcand : N -> bytes -> nat -> option MonsterRecord)
      data types monsters :
  fold_left
    (fun monsters monster_type =>
       scan (rcand monster_type) (to_bytes_le 4 monster_type) data monsters)
    types monsters =
  monsters ++
  flat_map (fun monster_type =>
              map snd (scan_trace (rcand monster_type)
                                  (random_tag monster_type) data)) types.
Proof.
  revert monsters; induction types as [|t types IH]; intros monsters; simpl.
  - now rewrite app_nil_r.
  - rewrite IH. change (to_bytes_le 4 t) with (random_tag t).
    rewrite scan_trace_records by apply random_tag_nonempty.
    now rewrite app_assoc.
Qed.

(** The returned list is the concatenation of the signature groups. *)
Lemma scan_buffer_groups mcand rcand data :
  scan_buffer mcand rcand data =
  map snd (concat (signature_groups mcand rcand data)).
Proof.
  unfold scan_buffer, signature_groups.
  rewrite random_pass_groups, scan_trace_records by apply monster_tag_nonempty.
  simpl. now rewrite !map_app.
Qed.

Lemma In_scan_buffer mcand rcand data r :
  In r (scan_buffer mcand rcand data) <->
  (exists p, occurs_at monster_type_bytes data p = true /\ mcand data p = Some r) \/
  (exists monster_type p,
      In monster_type random_monster_types /\
      occurs_at (random_tag monster_type) data p = true /\
      rcand monster_type data p = Some r).
Proof.
  rewrite scan_buffer_groups. unfold signature_groups.
  rewrite concat_cons, map_app, in_app_iff. split.
  - intros [H|H].
    + left. apply in_map_iff in H as ((p & r') & <- & H).
      apply scan_trace_In in H; [|apply monster_tag_nonempty]. eauto.
    + right. apply in_map_iff in H as ((p & r') & <- & H).
      apply in_concat in H as (g & Hg & H).
      apply in_map_iff in Hg as (t & <- & Ht).
      apply scan_trace_In in H; [|apply random_tag_nonempty].
      exists t, p. tauto.
  - intros [(p & Ho & Hc)|(t & p & Ht & Ho & Hc)].
    + left. apply in_map_iff. exists (p, r). split; [reflexivity|].
      apply scan_trace_In; [apply monster_tag_nonempty|auto].
    + right. apply in_map_iff. exists (p, r). split; [reflexivity|].
      apply in_concat. eexists. split.
      * apply in_map_iff. exists t. split; [reflexivity|exact Ht].
      * apply scan_trace_In; [apply random_tag_nonempty|auto].
Qed.

Section AtOffset.
Context {A : Type}.
Variable g : nat -> option A.

Let entries (l : list nat) : list (nat * A) :=
  flat_map (fun q => opt_list (option_map (pair q) (g q))) l.

Lemma at_offset_notin l p : ~ In p l -> at_offset p (entries l) = [].
Proof.
  unfold at_offset, entries.
  induction l as [|q l IH]; simpl; intros Hn; [reflexivity|].
  rewrite filter_app, IH by tauto. rewrite app_nil_r.
  destruct (g q); simpl; [|reflexivity].
  destruct (Nat.eqb_spec q p); [tauto|reflexivity].
Qed.

Lemma at_offset_in l p :
  StronglySorted lt l -> In p l ->
  at_offset p (entries l) = opt_list (option_map (pair p) (g p)).
Proof.
  intros Hs. induction Hs as [|q l Hs IH Hlt]; intros Hin; [destruct Hin|].
  rewrite Forall_forall in Hlt.
  change (entries (q :: l))
    with (opt_list (option_map (pair q) (g q)) ++ entries l).
  unfold at_offset at 1. rewrite filter_app.
  change (filter (fun e : nat * A => fst e =? p) (entries l))
    with (at_offset p (entries l)).
  destruct (Nat.eq_dec q p) as [->|Hne].
  - rewrite at_offset_notin.
    + rewrite app_nil_r. destruct (g p); simpl; [|reflexivity].
      now rewrite Nat.eqb_refl.
    + intros Hp. apply Hlt in Hp. lia.
  - rewrite IH by (destruct Hin; tauto).
    destruct (g q); simpl; [|reflexivity].
    destruct (Nat.eqb_spec q p); [tauto|reflexivity].
Qed.
End AtOffset.

(** In a trace there is at most one entry per offset: the accepted
    candidate of that occurrence. *)
Lemma at_offset_trace {A} (cand : bytes -> nat -> option A) tag data p :
  tag <> [] ->
  at_offset p (scan_trace cand tag data) =
  if occurs_at tag data p
  then opt_list (option_map (pair p) (cand data p)) else [].
Proof.
  intros Hne. rewrite scan_trace_occurrences by assumption.
  destruct (occurs_at tag data p) eqn:Ho.
  - apply (at_offset_in (cand data)); [apply occurrences_sorted|].
    apply occurrences_In. split; [lia|assumption].
  - apply (at_offset_notin (cand data)). intros Hin.
    apply occurrences_In in Hin as [_ Hin]. congruence.
Qed.

Lemma occurrences_split tag data pos p :
  pos <= p -> occurs_at tag data p = true ->
  occurrences tag data pos =
  filter (occurs_at tag data) (seq pos (p - pos)) ++
  p :: occurrences tag data (S p).
Proof.
  intros Hle Ho. unfold occurrences.
  assert (p <= length data).
  { unfold occurs_at in Ho. apply andb_prop in Ho as [Ho _].
    now apply Nat.leb_le in Ho. }
  replace (S (length data) - pos)
    with ((p - pos) + S (S (length data) - S p)) by lia.
  rewrite seq_app, filter_app.
  replace (pos + (p - pos)) with p by lia. simpl. now rewrite Ho.
Qed.



(* ================================================================= *)
(** ** Properties of the scanner *)

(** C2.  A concrete-monster tag at offset [p] with [p + 8 >= len(data)]
    yields no record, in every copy of the concrete-monster body: the
    candidate decodes to nothing, the trace of the scan has no entry at
    [p], and the loop goes on at [p + 1] with the list of monsters as it
    was. *)
Theorem C2_short_candidate_skipped NAME qmin data p :
  occurs_at monster_type_bytes data p = true ->
  length data <= p + 8 ->
  monster_candidate NAME qmin data p = None /\
  Editor.monster_candidate_gzip NAME data p = None /\
  at_offset p (scan_trace (monster_candidate NAME qmin)
                          monster_type_bytes data) = [] /\
  forall fuel pos monsters,
    find data monster_type_bytes pos = Some p ->
    scan_loop (monster_candidate NAME qmin) monster_type_bytes
              (S fuel) data pos monsters =
    scan_loop (monster_candidate NAME qmin) monster_type_bytes
              fuel data (S p) monsters.
Proof.
  intros Ho Hlen.
  assert (Hnone : forall q, monster_candidate NAME q data p = None).
  { intros q. destruct (monster_candidate NAME q data p) eqn:E; [|reflexivity].
    apply monster_candidate_Some in E as (E & _). lia. }
  repeat split.
  - apply Hnone.
  - rewrite monster_candidate_gzip_eq. apply Hnone.
  - rewrite at_offset_trace by apply monster_tag_nonempty.
    rewrite Ho, Hnone. reflexivity.
  - intros fuel pos monsters Hf.
    rewrite (scan_loop_step _ _ _ _ _ _ _ Hf), Hnone. reflexivity.
Qed.

Lemma C2_short_candidate_skipped_witness :
  occurs_at monster_type_bytes Sample.truncated 0 = true /\
  length Sample.truncated <= 0 + 8 /\
  monster_candidate Sample.names 0 Sample.truncated 0 = None.
Proof.
  split; [reflexivity|]. split; [simpl; lia|].
  apply (C2_short_candidate_skipped Sample.names 0 Sample.truncated 0);
    [reflexivity|simpl; lia].
Defined.

(** No returned record carries a creature id outside the name table. *)
Lemma subtype_in_table NAME mq (rcand : N -> bytes -> nat -> option MonsterRecord)
      data r creature_id :
  (forall t d p r', rcand t d p = Some r' -> subtype r' = None) ->
  In r (scan_buffer (monster_candidate NAME mq) rcand data) ->
  subtype r = Some creature_id ->
  (creature_id < N.of_nat (length NAME))%N.
Proof.
  intros Hr Hin Hs. apply In_scan_buffer in Hin as [(p & _ & Hc)|(t & p & _ & _ & Hc)].
  - apply monster_candidate_Some in Hc as (_ & Hid & _ & ->).
    simpl in Hs. now injection Hs as <-.
  - apply Hr in Hc. congruence.
Qed.

Lemma random_candidate_subtype qmin t d p r :
  random_candidate qmin t d p = Some r -> subtype r = None.
Proof. intros H. now apply random_candidate_Some in H as (_ & _ & ->). Qed.

(** C4.  A concrete-monster candidate whose decoded creature id is at or
    beyond the length of the creature-name table is discarded by every
    copy of the body, whatever its quantity and the rest of the buffer:
    no record is produced at that offset; and no record of a returned
    list stands in for it, every creature id a scan returns being an
    index of the table. *)
Theorem C4_unknown_creature_discarded NAME qmin data p :
  (N.of_nat (length NAME) <= decoded_creature_id data p)%N ->
  monster_candidate NAME qmin data p = None /\
  Editor.monster_candidate_gzip NAME data p = None /\
  at_offset p (scan_trace (monster_candidate NAME qmin)
                          monster_type_bytes data) = [] /\
  forall r creature_id,
    In r (V1.scan_monsters NAME data) \/ In r (Editor.scan_gzip NAME data) \/
    In r (Editor.scan_raw NAME data) ->
    subtype r = Some creature_id ->
    (creature_id < N.of_nat (length NAME))%N.
Proof.
  intros Hid.
  assert (Hnone : forall q, monster_candidate NAME q data p = None).
  { intros q. destruct (monster_candidate NAME q data p) eqn:E; [|reflexivity].
    apply monster_candidate_Some in E as (_ & E & _). lia. }
  repeat split.
  - apply Hnone.
  - rewrite monster_candidate_gzip_eq. apply Hnone.
  - rewrite at_offset_trace by apply monster_tag_nonempty.
    rewrite Hnone. now destruct (occurs_at _ _ _).
  - intros r creature_id [H|[H|H]] Hs;
      eapply subtype_in_table; eauto using random_candidate_subtype.
Qed.

Lemma C4_unknown_creature_discarded_witness :
  (N.of_nat (length Sample.names)
   <= decoded_creature_id Sample.unknown_creature 0)%N /\
  monster_candidate Sample.names 0 Sample.unknown_creature 0 = None.
Proof.
  split; [vm_compute; discriminate|].
  apply (C4_unknown_creature_discarded Sample.names 0 Sample.unknown_creature 0).
  vm_compute; discriminate.
Defined.

(** C6.  For every 4-byte tag the loop evaluates a candidate at every
    offset at which the tag occurs, overlapping occurrences included, in
    ascending order and once each: the offsets it visits are exactly the
    occurrences among offsets [0 .. len(data)]; the list a scan returns
    is built from one candidate evaluation per visited offset; after a
    match at [p] the search goes on at [p + 1]; and two occurrences one
    byte apart are both visited, one after the other. *)
Theorem C6_every_occurrence_visited tag data :
  length tag = 4 ->
  match_offsets tag data =
    filter (occurs_at tag data) (seq 0 (S (length data))) /\
  (forall (A : Type) (cand : bytes -> nat -> option A) monsters,
      scan cand tag data monsters =
      monsters ++ flat_map (fun p => opt_list (cand data p))
                           (match_offsets tag data)) /\
  (forall (A : Type) (cand : bytes -> nat -> option A) fuel pos p monsters,
      find data tag pos = Some p ->
      scan_loop cand tag (S fuel) data pos monsters =
      scan_loop cand tag fuel data (S p) (append monsters (cand data p))) /\
  (forall p,
      occurs_at tag data p = true -> occurs_at tag data (S p) = true ->
      exists before after,
        match_offsets tag data = before ++ p :: S p :: after).
Proof.
  intros Hlen.
  assert (Hne : tag <> []) by (intros ->; discriminate).
  rewrite (match_offsets_occurrences _ _ Hne).
  split; [unfold occurrences; now rewrite Nat.sub_0_r|].
  split; [|split].
  - intros A cand monsters. now apply scan_occurrences.
  - intros A cand fuel pos p monsters Hf. now apply scan_loop_step.
  - intros p Hp Hsp.
    rewrite (occurrences_split tag data 0 p (Nat.le_0_l p) Hp).
    rewrite (occurrences_split tag data (S p) (S p) (Nat.le_refl (S p)) Hsp).
    rewrite Nat.sub_diag. simpl. eauto.
Qed.

Lemma C6_every_occurrence_visited_witness :
  length [x00; x00; x00; x00] = 4 /\
  match_offsets [x00; x00; x00; x00] [x00; x00; x00; x00; x00] = [0; 1].
Proof.
  split; [reflexivity|].
  destruct (C6_every_occurrence_visited
              [x00; x00; x00; x00] [x00; x00; x00; x00; x00] eq_refl)
    as (H & _).
  exact H.
Defined.

(** C5.  The list [parse_map_file] of the V1 script returns for a buffer
    is the concatenation of nine groups: the concrete-monster records
    (type 54) first, then the records of the random-monster types 71,
    72, 73, 74, 75, 162, 163, 164 in that order.  Every group holds the
    accepted candidates of its tag, and the match offsets within a group
    are strictly increasing.  Across groups they need not be: a random
    monster of type 72 matched before one of type 71 is still returned
    after it. *)
Theorem C5_records_grouped_by_signature NAME data :
  let groups :=
    signature_groups (monster_candidate NAME 0) (random_candidate 1) data in
  V1.scan_monsters NAME data = map snd (concat groups) /\
  Forall (fun g => StronglySorted lt (map fst g)) groups /\
  Forall2 (fun monster_type g =>
             forall p r, In (p, r) g ->
                         type r = monster_type /\
                         occurs_at (to_bytes_le 4 monster_type) data p = true)
          (54 :: 71 :: 72 :: 73 :: 74 :: 75 :: 162 :: 163 :: 164 :: nil)%N
          groups /\
  exists data',
    ~ StronglySorted lt
        (map fst (concat (signature_groups (monster_candidate NAME 0)
                                           (random_candidate 1) data'))).
Proof.
  intros groups. split; [apply scan_buffer_groups|]. split; [|split].
  - unfold groups, signature_groups. constructor.
    + apply scan_trace_sorted, monster_tag_nonempty.
    + apply Forall_forall. intros g Hg. apply in_map_iff in Hg as (t & <- & _).
      apply scan_trace_sorted, random_tag_nonempty.
  - assert (Hm : forall p r,
               In (p, r) (scan_trace (monster_candidate NAME 0)
                                     monster_type_bytes data) ->
               type r = 54%N /\ occurs_at (to_bytes_le 4 54) data p = true).
    { intros p r H. apply scan_trace_In in H as [Ho Hc];
        [|apply monster_tag_nonempty].
      apply monster_candidate_Some in Hc as (_ & _ & _ & ->). auto. }
    assert (Hr : forall t p r,
               In (p, r) (scan_trace (random_candidate 1 t) (random_tag t) data) ->
               type r = t /\ occurs_at (to_bytes_le 4 t) data p = true).
    { intros t p r H. apply scan_trace_In in H as [Ho Hc];
        [|apply random_tag_nonempty].
      apply random_candidate_Some in Hc as (_ & _ & ->). auto. }
    unfold groups, signature_groups, random_monster_types. cbn [map].
    repeat (constructor; [solve [apply Hm | apply Hr]|]). constructor.
  - exists Sample.later_type_first. intros Hs.
    assert (E : map fst (concat (signature_groups
                                   (monster_candidate NAME 0) (random_candidate 1)
                                   Sample.later_type_first)) = [7; 0])
      by reflexivity.
    rewrite E in Hs. inversion Hs as [|? ? _ Hall]; subst.
    inversion Hall; subst. lia.
Qed.

(** On the sample buffer the concrete monster matched at offset 7 is
    returned before the random monster matched at offset 0. *)
Example random_then_concrete_order :
  concat (signature_groups (monster_candidate Sample.names 0)
                           (random_candidate 1) Sample.random_then_concrete) =
  [(7, {| type := 54; subtype := Some 2%N; quantity := 7; disposition := 2 |});
   (0, {| type := 71; subtype := None; quantity := 12; disposition := 2 |})].
Proof. reflexivity. Qed.


Lemma scan_buffer_disposition NAME mq rq data :
  Forall (fun r => disposition r = Disposition.Aggressive)
         (scan_buffer (monster_candidate NAME mq) (random_candidate rq) data).
Proof.
  apply Forall_forall. intros r Hin.
  apply In_scan_buffer in Hin as [(p & _ & Hc)|(t & p & _ & _ & Hc)].
  - now apply monster_candidate_Some in Hc as (_ & _ & _ & ->).
  - now apply random_candidate_Some in Hc as (_ & _ & ->).
Qed.

(* ================================================================= *)
(** ** Properties of loading and writing back *)

(** C7.  When the container cannot be loaded the parse returns an empty
    list and nothing is raised: in the V1 script, which has no fallback,
    as soon as the gzip read fails ([data] is then [None]); in
    [RajanHoAEditor.py] when the raw read fails too.  The callers
    [GetMonsterProperty] and [SetMonsterProperty] then report that no
    monster objects were found and return; nothing is written. *)
Theorem C7_load_failure_yields_no_records NAME w filename :
  gzip_read w filename = None ->
  V1.parse_map_file NAME w filename = ([L_gzip_error], ([], None)) /\
  V1.GetMonsterProperty NAME w filename =
    [L_parsing filename; L_gzip_error; L_no_monsters] /\
  V1.SetMonsterProperty NAME w filename =
    ([L_parsing filename; L_gzip_error; L_no_monsters], []) /\
  (raw_read w filename = None -> Editor.parse_map_file NAME w filename = []).
Proof.
  intros Hg.
  unfold V1.GetMonsterProperty, V1.SetMonsterProperty, V1.parse_map_file,
    Editor.parse_map_file.
  rewrite Hg. repeat split. intros Hr. now rewrite Hr.
Qed.

Lemma C7_load_failure_yields_no_records_witness :
  gzip_read Sample.empty_world "Do.h3m" = None /\
  V1.parse_map_file Sample.names Sample.empty_world "Do.h3m" =
    ([L_gzip_error], ([], None)).
Proof.
  split; [reflexivity|].
  apply (C7_load_failure_yields_no_records Sample.names Sample.empty_world
                                           "Do.h3m" eq_refl).
Defined.

(** Without an occurrence of any of the nine tags nothing is returned. *)
Lemma scan_buffer_no_signature mcand rcand data :
  Forall (fun tag => match_offsets tag data = []) signature_tags ->
  scan_buffer mcand rcand data = [].
Proof.
  intros Hall. rewrite Forall_forall in Hall.
  assert (Hnone : forall tag p, In tag signature_tags -> tag <> [] ->
                                occurs_at tag data p = true -> False).
  { intros tag p Hin Hne Ho.
    assert (Hp : In p (match_offsets tag data)).
    { rewrite match_offsets_occurrences by assumption.
      apply occurrences_In. split; [lia|assumption]. }
    rewrite (Hall tag Hin) in Hp. destruct Hp. }
  destruct (scan_buffer mcand rcand data) as [|r l] eqn:E; [reflexivity|].
  assert (Hin : In r (scan_buffer mcand rcand data)) by (rewrite E; now left).
  apply In_scan_buffer in Hin as [(p & Ho & _)|(t & p & Ht & Ho & _)].
  - exfalso. apply (Hnone monster_type_bytes p); auto using monster_tag_nonempty.
    now left.
  - exfalso. apply (Hnone (random_tag t) p); auto using random_tag_nonempty.
    right. now apply in_map.
Qed.

(** C8, as amended.  Run on a container whose buffer has no signature
    match, [SetMonsterProperty] writes no output file at all: it reports
    that no monster objects were found and returns. *)
Theorem C8_no_match_no_output_file NAME w filename data :
  gzip_read w filename = Some data ->
  Forall (fun tag => match_offsets tag data = []) signature_tags ->
  V1.SetMonsterProperty NAME w filename =
    ([L_parsing filename; L_no_monsters], []).
Proof.
  intros Hg Hall. unfold V1.SetMonsterProperty, V1.parse_map_file.
  rewrite Hg. unfold V1.scan_monsters.
  now rewrite (scan_buffer_no_signature _ _ data Hall).
Qed.

Lemma C8_no_match_no_output_file_witness :
  gzip_read (Sample.gzip_world "Do.h3m" Sample.no_signature) "Do.h3m"
    = Some Sample.no_signature /\
  Forall (fun tag => match_offsets tag Sample.no_signature = []) signature_tags /\
  V1.SetMonsterProperty Sample.names
      (Sample.gzip_world "Do.h3m" Sample.no_signature) "Do.h3m" =
    ([L_parsing "Do.h3m"; L_no_monsters], []).
Proof.
  assert (H : Forall (fun tag => match_offsets tag Sample.no_signature = [])
                     signature_tags)
    by (repeat constructor).
  split; [reflexivity|]. split; [exact H|].
  apply (C8_no_match_no_output_file Sample.names
           (Sample.gzip_world "Do.h3m" Sample.no_signature) "Do.h3m"
           Sample.no_signature eq_refl H).
Defined.

(** C8 as stated fails: for a loaded buffer without any signature match
    no output file holds the bytes of the buffer, since none is written. *)
Lemma C8_output_file_counterexample :
  gzip_read (Sample.gzip_world "Do.h3m" Sample.no_signature) "Do.h3m"
    = Some Sample.no_signature /\
  Forall (fun tag => match_offsets tag Sample.no_signature = []) signature_tags /\
  ~ exists path,
      In (path, Sample.no_signature)
         (snd (V1.SetMonsterProperty Sample.names
                 (Sample.gzip_world "Do.h3m" Sample.no_signature) "Do.h3m")).
Proof.
  split; [reflexivity|]. split; [repeat constructor|].
  intros (path & H). exact H.
Qed.

(** Whatever [SetMonsterProperty] writes, it writes to [Do2.h3m], and it
    writes the buffer as it was loaded. *)
Lemma SetMonsterProperty_writes NAME w filename path written :
  In (path, written) (snd (V1.SetMonsterProperty NAME w filename)) ->
  path = "Do2.h3m"%string /\ gzip_read w filename = Some written.
Proof.
  unfold V1.SetMonsterProperty, V1.parse_map_file.
  destruct (gzip_read w filename) as [data|]; [|intros []].
  destruct (V1.scan_monsters NAME data); [intros []|].
  destruct (can_write w "Do2.h3m"); [|intros []].
  intros [[= <- <-]|[]]. auto.
Qed.

(** C9, as amended.  When [SetMonsterProperty] writes an output file the
    written buffer has the length of the loaded buffer and every byte
    outside the disposition offsets of the accepted candidates is the
    byte of the loaded buffer; the file is written to the fixed path
    [Do2.h3m], and the input file is left alone whenever its path does
    not denote the file that [Do2.h3m] denotes.  [file_of] is any map
    from paths to the files they denote: two spellings of one path, as
    [./Do2.h3m] and [Do2.h3m], denote the same file. *)
Theorem C9_write_back_frame {File : Type} (file_of : string -> File)
        NAME w filename path written :
  In (path, written) (snd (V1.SetMonsterProperty NAME w filename)) ->
  exists data,
    gzip_read w filename = Some data /\
    length written = length data /\
    (forall i,
        ~ In i (disposition_offsets (monster_candidate NAME 0)
                                    (random_candidate 1) data) ->
        nth_error written i = nth_error data i) /\
    path = "Do2.h3m"%string /\
    (file_of filename <> file_of "Do2.h3m"%string ->
     file_of path <> file_of filename).
Proof.
  intros H. apply SetMonsterProperty_writes in H as [-> Hg].
  exists written. split; [exact Hg|]. split; [reflexivity|].
  split; [reflexivity|]. split; [reflexivity|].
  intros Hne E. apply Hne. now symmetry.
Qed.

Lemma C9_write_back_frame_witness :
  In ("Do2.h3m"%string, Sample.pikemen)
     (snd (V1.SetMonsterProperty Sample.names
             (Sample.gzip_world "./Do.h3m" Sample.pikemen) "./Do.h3m")) /\
  without_dot_slash "./Do.h3m" <> without_dot_slash "Do2.h3m" /\
  without_dot_slash "Do2.h3m" <> without_dot_slash "./Do.h3m" /\
  exists data,
    gzip_read (Sample.gzip_world "./Do.h3m" Sample.pikemen) "./Do.h3m"
      = Some data /\
    length Sample.pikemen = length data.
Proof.
  assert (H : In ("Do2.h3m"%string, Sample.pikemen)
                 (snd (V1.SetMonsterProperty Sample.names
                         (Sample.gzip_world "./Do.h3m" Sample.pikemen)
                         "./Do.h3m")))
    by (left; reflexivity).
  assert (Hne : without_dot_slash "./Do.h3m" <> without_dot_slash "Do2.h3m")
    by discriminate.
  destruct (C9_write_back_frame without_dot_slash Sample.names
              (Sample.gzip_world "./Do.h3m" Sample.pikemen) "./Do.h3m"
              "Do2.h3m" Sample.pikemen H) as (data & Hg & Hl & _ & _ & Hfile).
  split; [exact H|]. split; [exact Hne|]. split; [exact (Hfile Hne)|].
  exists data. split; assumption.
Defined.

(** Another spelling of the output path is overwritten as well: run on
    [./Do2.h3m], [SetMonsterProperty] writes to [Do2.h3m], the file its
    input path denotes. *)
Example dot_slash_input_overwritten :
  "./Do2.h3m"%string <> "Do2.h3m"%string /\
  without_dot_slash "./Do2.h3m" = without_dot_slash "Do2.h3m" /\
  snd (V1.SetMonsterProperty Sample.names
         (Sample.gzip_world "./Do2.h3m" Sample.pikemen) "./Do2.h3m") =
  [("Do2.h3m"%string, Sample.pikemen)].
Proof. repeat split. discriminate. Qed.

(** C9 as stated fails: run on the container [Do2.h3m] itself,
    [SetMonsterProperty] writes to the path of its input file, replacing
    the container by its decompressed payload. *)
Lemma C9_input_overwritten_counterexample :
  gzip_read (Sample.gzip_world "Do2.h3m" Sample.pikemen) "Do2.h3m"
    = Some Sample.pikemen /\
  ~ forall path written,
      In (path, written)
         (snd (V1.SetMonsterProperty Sample.names
                 (Sample.gzip_world "Do2.h3m" Sample.pikemen) "Do2.h3m")) ->
      path <> "Do2.h3m"%string.
Proof.
  split; [reflexivity|].
  intros H. apply (H "Do2.h3m"%string Sample.pikemen); [left|]; reflexivity.
Qed.

(** C1 fails on the code.  On the scenario of the specification (tag 54
    at offset 0, creature 0, quantity 25, stored disposition byte 0 at
    offset 18) the candidate is accepted and [SetMonsterProperty]
    reports success, but the buffer it writes still has 0, not 2, at
    offset 18: it is the loaded buffer, byte for byte. *)
Theorem C1_disposition_byte_not_patched :
  let w := Sample.gzip_world "Do.h3m" Sample.pikemen in
  scan_trace (monster_candidate Sample.names 0) monster_type_bytes
             Sample.pikemen =
    [(0, {| type := 54; subtype := Some 0%N; quantity := 25;
            disposition := 2 |})] /\
  V1.SetMonsterProperty Sample.names w "Do.h3m" =
    ([L_parsing "Do.h3m"; L_updated], [("Do2.h3m"%string, Sample.pikemen)]) /\
  nth_error Sample.pikemen (0 + 18) = Some x00 /\
  nth_error Sample.pikemen (0 + 18) <> Some (byte_of_N Disposition.Aggressive).
Proof.
  repeat split. discriminate.
Qed.

(** A well-formed concrete-monster record whose quantity is in the range
    of the scanning path yields exactly one record at its offset, with
    the decoded creature id and quantity; the name printed for it is the
    entry of the creature-name table. *)
Lemma well_formed_monster_found NAME qmin rcand data p :
  occurs_at monster_type_bytes data p = true ->
  p + 8 < length data ->
  (decoded_creature_id data p < N.of_nat (length NAME))%N ->
  (qmin <= decoded_quantity data p <= 1000)%N ->
  let r := {| type := ID_Monster;
              subtype := Some (decoded_creature_id data p);
              quantity := decoded_quantity data p;
              disposition := 2 |} in
  at_offset p (scan_trace (monster_candidate NAME qmin)
                          monster_type_bytes data) = [(p, r)] /\
  In r (scan_buffer (monster_candidate NAME qmin) rcand data) /\
  exists name,
    nth_error NAME (N.to_nat (decoded_creature_id data p)) = Some name /\
    creature_name NAME r = Some name.
Proof.
  intros Ho Hlen Hid Hq r.
  assert (Hc : monster_candidate NAME qmin data p = Some r)
    by (apply monster_candidate_Some; auto).
  split; [|split].
  - rewrite at_offset_trace by apply monster_tag_nonempty.
    now rewrite Ho, Hc.
  - apply In_scan_buffer. left. eauto.
  - exists (nth (N.to_nat (decoded_creature_id data p)) NAME ""%string). split.
    + apply nth_error_nth'. lia.
    + unfold creature_name, r. simpl.
      apply N.ltb_lt in Hid. now rewrite Hid.
Qed.

(** The V1 script and the gzip branch of [RajanHoAEditor.py] accept
    every quantity in [0, 1000]. *)
Lemma well_formed_monster_found_V1 NAME data p :
  occurs_at monster_type_bytes data p = true ->
  p + 8 < length data ->
  (decoded_creature_id data p < N.of_nat (length NAME))%N ->
  (decoded_quantity data p <= 1000)%N ->
  let r := {| type := ID_Monster;
              subtype := Some (decoded_creature_id data p);
              quantity := decoded_quantity data p;
              disposition := 2 |} in
  at_offset p (scan_trace (monster_candidate NAME 0)
                          monster_type_bytes data) = [(p, r)] /\
  In r (V1.scan_monsters NAME data) /\
  at_offset p (scan_trace (Editor.monster_candidate_gzip NAME)
                          monster_type_bytes data) = [(p, r)] /\
  In r (Editor.scan_gzip NAME data) /\
  exists name,
    nth_error NAME (N.to_nat (decoded_creature_id data p)) = Some name /\
    creature_name NAME r = Some name.
Proof.
  intros Ho Hlen Hid Hq r.
  assert (H0 : (0 <= decoded_quantity data p <= 1000)%N) by lia.
  destruct (well_formed_monster_found NAME 0 (random_candidate 1) data p
              Ho Hlen Hid H0) as (H1 & H2 & H3).
  destruct (well_formed_monster_found NAME 0 (random_candidate 0) data p
              Ho Hlen Hid H0) as (_ & H4 & _).
  repeat split; assumption.
Qed.

(** The name [GetMonsterProperty] prints on the scenario of the
    specification. *)
Example GetMonsterProperty_pikemen :
  V1.GetMonsterProperty Sample.names
    (Sample.gzip_world "Do.h3m" Sample.pikemen) "Do.h3m" =
  [L_parsing "Do.h3m"; L_monster_no 1; L_name "Pikeman";
   L_disposition_aggressive; L_blank].
Proof. reflexivity. Qed.

(** The random-monster scenario of the specification: tag 71 followed by
    quantity 12. *)
Example random_monster_scenario :
  V1.scan_monsters Sample.names
    [x47; x00; x00; x00;  x0c; x00;  xaa] =
  [{| type := 71; subtype := None; quantity := 12; disposition := 2 |}].
Proof. reflexivity. Qed.

(** C3 fails on the raw fallback branch of [RajanHoAEditor.py].  The
    sample buffer holds a well-formed concrete-monster record at offset
    0 (creature id 1, inside the table; quantity 0; all reads in
    bounds).  The V1 script and the gzip branch return one record for
    it; read as a raw file, the same buffer yields none, the fallback
    branch asking for a quantity of at least 1. *)
Theorem C3_raw_branch_drops_quantity_zero :
  let r := {| type := 54; subtype := Some 1%N; quantity := 0;
              disposition := 2 |} in
  occurs_at monster_type_bytes Sample.empty_stack 0 = true /\
  0 + 8 < length Sample.empty_stack /\
  decoded_creature_id Sample.empty_stack 0 = 1%N /\
  decoded_quantity Sample.empty_stack 0 = 0%N /\
  V1.scan_monsters Sample.names Sample.empty_stack = [r] /\
  Editor.parse_map_file Sample.names
    (Sample.gzip_world "Do.h3m" Sample.empty_stack) "Do.h3m" = [r] /\
  Editor.parse_map_file Sample.names
    (Sample.raw_world "Do.h3m" Sample.empty_stack) "Do.h3m" = [].
Proof.
  repeat split. simpl. lia.
Qed.

(* ================================================================= *)
(** ** Properties of the helper functions *)

Ltac level_cases :=
  unfold get_creature_level;
  repeat match goal with
         | |- context [(?a <? ?b)%Z] => destruct (Z.ltb_spec a b)
         end.

(** X1.  For a creature id that is not negative [get_creature_level]
    returns a level between 1 and 7, whatever the table of AI values
    holds. *)
Theorem get_creature_level_range AI_VALUE creature_id :
  (0 <= creature_id)%Z ->
  (1 <= get_creature_level AI_VALUE creature_id <= 7)%Z.
Proof.
  intros H. level_cases; try lia; Z.div_mod_to_equations; lia.
Qed.

Lemma get_creature_level_range_witness :
  (0 <= 83)%Z /\ (1 <= get_creature_level [] 83 <= 7)%Z.
Proof.
  split; [lia|]. apply (get_creature_level_range [] 83). lia.
Defined.

(** X2.  For the creatures of the eight towns (ids 0 to 111, fourteen
    per town) the level is [(id mod 14) // 2 + 1]: the table of AI
    values is not consulted, and a creature and its upgrade (ids [2k]
    and [2k+1]) have the same level. *)
Theorem get_creature_level_town AI_VALUE creature_id :
  (0 <= creature_id < 112)%Z ->
  get_creature_level AI_VALUE creature_id = ((creature_id mod 14) / 2 + 1)%Z /\
  get_creature_level AI_VALUE (2 * (creature_id / 2)) =
  get_creature_level AI_VALUE (2 * (creature_id / 2) + 1).
Proof.
  intros H. split.
  - level_cases; try lia; Z.div_mod_to_equations; lia.
  - assert (H2 : (0 <= creature_id / 2 < 56)%Z)
      by (Z.div_mod_to_equations; lia).
    generalize dependent (creature_id / 2)%Z. intros k Hk.
    level_cases; try lia; Z.div_mod_to_equations; lia.
Qed.

Lemma get_creature_level_town_witness :
  (0 <= 83 < 112)%Z /\ get_creature_level [] 83 = 7%Z.
Proof.
  split; [lia|].
  destruct (get_creature_level_town [] 83) as [H _]; [lia|]. exact H.
Defined.

(** X3.  From id 112 on the level follows the AI value of the creature
    and grows with it; an id at or beyond the end of the table counts as
    AI value 0 and gets level 1. *)
Theorem get_creature_level_by_ai_value AI_VALUE id1 id2 :
  (112 <= id1)%Z -> (112 <= id2)%Z ->
  (nth (Z.to_nat id1) AI_VALUE 0 <= nth (Z.to_nat id2) AI_VALUE 0)%Z ->
  (get_creature_level AI_VALUE id1 <= get_creature_level AI_VALUE id2)%Z /\
  ((Z.of_nat (length AI_VALUE) <= id1)%Z ->
   get_creature_level AI_VALUE id1 = 1%Z).
Proof.
  intros H1 H2 Hai.
  assert (Hin : forall id, (0 <= id)%Z ->
                  (if (id <? Z.of_nat (length AI_VALUE))%Z
                   then nth (Z.to_nat id) AI_VALUE 0%Z else 0%Z) =
                  nth (Z.to_nat id) AI_VALUE 0%Z).
  { intros id H0. destruct (Z.ltb_spec id (Z.of_nat (length AI_VALUE)));
      [reflexivity|]. symmetry. apply nth_overflow. lia. }
  assert (Hlevel : forall id, (112 <= id)%Z ->
            get_creature_level AI_VALUE id =
            (let ai_value := nth (Z.to_nat id) AI_VALUE 0 in
             if ai_value <? 100 then 1 else if ai_value <? 200 then 2
             else if ai_value <? 400 then 3 else if ai_value <? 800 then 4
             else if ai_value <? 1600 then 5 else if ai_value <? 3200 then 6
             else 7)%Z).
  { intros id Hid. unfold get_creature_level.
    do 8 (match goal with
          | |- context [(id <? Zpos ?b)%Z] =>
              destruct (Z.ltb_spec id (Zpos b)); [lia|]
          end).
    rewrite Hin by lia. reflexivity. }
  split.
  - rewrite !Hlevel by assumption. cbv zeta.
    repeat match goal with
           | |- context [(?a <? ?b)%Z] => destruct (Z.ltb_spec a b)
           end; lia.
  - intros Hlen. rewrite Hlevel by assumption.
    rewrite nth_overflow by lia. reflexivity.
Qed.

Lemma get_creature_level_by_ai_value_witness :
  (112 <= 112)%Z /\ (112 <= 113)%Z /\
  (get_creature_level (repeat 0%Z 112 ++ [150; 5000]%Z) 112
   <= get_creature_level (repeat 0%Z 112 ++ [150; 5000]%Z) 113)%Z.
Proof.
  split; [lia|]. split; [lia|].
  apply (get_creature_level_by_ai_value (repeat 0%Z 112 ++ [150; 5000]%Z) 112 113);
    [lia|lia|vm_compute; discriminate].
Defined.

Lemma dict_get_absent {V} (items : list (N * V)) key default :
  ~ In key (map fst items) -> dict_get items key default = default.
Proof.
  revert default; induction items as [|[k v] items IH]; intros default Hn;
    simpl in *; [reflexivity|].
  rewrite IH by tauto.
  destruct (N.eqb_spec k key); [tauto|reflexivity].
Qed.

(** The item of a key that no later item repeats is the one looked up. *)
Lemma dict_get_present {V} (before after : list (N * V)) key v default :
  ~ In key (map fst after) ->
  dict_get (before ++ (key, v) :: after) key default = v.
Proof.
  revert default; induction before as [|[k' v'] before IH]; intros default Hn;
    simpl.
  - rewrite N.eqb_refl. now apply dict_get_absent.
  - now apply IH.
Qed.

(** X4.  When the six members of [Disposition] have pairwise different
    codes, [get_disposition_name] gives each code the name of its
    member; every other value is named [Unknown]. *)
Theorem get_disposition_name_members Compliant Friendly Hostile Savage Precise :
  NoDup [Compliant; Friendly; Disposition.Aggressive; Hostile; Savage; Precise] ->
  let name := get_disposition_name Compliant Friendly Hostile Savage Precise in
  name Compliant = "Compliant"%string /\
  name Friendly = "Friendly"%string /\
  name Disposition.Aggressive = "Aggressive"%string /\
  name Hostile = "Hostile"%string /\
  name Savage = "Savage"%string /\
  name Precise = "Precise"%string /\
  forall value,
    ~ In value [Compliant; Friendly; Disposition.Aggressive;
                Hostile; Savage; Precise] ->
    name value = "Unknown"%string.
Proof.
  intros Hnd name. unfold name, get_disposition_name.
  inversion Hnd as [|? ? H1 Hnd1]; subst.
  inversion Hnd1 as [|? ? H2 Hnd2]; subst.
  inversion Hnd2 as [|? ? H3 Hnd3]; subst.
  inversion Hnd3 as [|? ? H4 Hnd4]; subst.
  inversion Hnd4 as [|? ? H5 Hnd5]; subst.
  inversion Hnd5 as [|? ? H6 _]; subst.
  repeat split.
  - now apply (dict_get_present []).
  - now apply (dict_get_present [_]).
  - now apply (dict_get_present [_; _]).
  - now apply (dict_get_present [_; _; _]).
  - now apply (dict_get_present [_; _; _; _]).
  - now apply (dict_get_present [_; _; _; _; _]).
  - intros value Hv. now apply dict_get_absent.
Qed.

Lemma get_disposition_name_members_witness :
  NoDup [0; 1; Disposition.Aggressive; 3; 4; 5]%N /\
  get_disposition_name 0 1 3 4 5 Disposition.Aggressive = "Aggressive"%string.
Proof.
  assert (H : NoDup [0; 1; Disposition.Aggressive; 3; 4; 5]%N).
  { repeat constructor; simpl; intuition discriminate. }
  split; [exact H|].
  destruct (get_disposition_name_members 0 1 3 4 5 H) as (_ & _ & Ha & _).
  exact Ha.
Defined.

Lemma is_monster_type_iff obj_type :
  is_monster_type obj_type = true <->
  obj_type = ID_Monster \/ In obj_type random_monster_types.
Proof.
  unfold is_monster_type. rewrite existsb_exists. split.
  - intros (t & Hin & Ht). apply N.eqb_eq in Ht. subst t.
    destruct Hin as [<-|Hin]; [now left|right; exact Hin].
  - intros [->|Hin].
    + exists ID_Monster. split; [now left|apply N.eqb_refl].
    + exists obj_type. split; [right; exact Hin|apply N.eqb_refl].
Qed.

(** The type of a returned record is 54 or the type of the random pass
    that found it. *)
Lemma scan_buffer_types NAME mq rq data r :
  In r (scan_buffer (monster_candidate NAME mq) (random_candidate rq) data) ->
  type r = ID_Monster \/ In (type r) random_monster_types.
Proof.
  intros Hin. apply In_scan_buffer in Hin as [(p & _ & Hc)|(t & p & Ht & _ & Hc)].
  - left. now apply monster_candidate_Some in Hc as (_ & _ & _ & ->).
  - right. now apply random_candidate_Some in Hc as (_ & _ & ->).
Qed.

(** X5.  [is_monster_type] holds of the type of every record the scans
    return, in the V1 script and in both branches of [RajanHoAEditor.py];
    it holds of the nine scanned object types and of no other value. *)
Theorem is_monster_type_of_records NAME data :
  Forall (fun r => is_monster_type (type r) = true) (V1.scan_monsters NAME data) /\
  Forall (fun r => is_monster_type (type r) = true) (Editor.scan_gzip NAME data) /\
  Forall (fun r => is_monster_type (type r) = true) (Editor.scan_raw NAME data) /\
  forall obj_type,
    is_monster_type obj_type = true <->
    In obj_type (54 :: 71 :: 72 :: 73 :: 74 :: 75 :: 162 :: 163 :: 164 :: nil)%N.
Proof.
  assert (H : forall mq rq,
             Forall (fun r => is_monster_type (type r) = true)
                    (scan_buffer (monster_candidate NAME mq)
                                 (random_candidate rq) data)).
  { intros mq rq. apply Forall_forall. intros r Hin.
    apply is_monster_type_iff. eapply scan_buffer_types; eauto. }
  split; [apply H|]. split; [apply (H 0%N 0%N)|]. split; [apply H|].
  intros obj_type. rewrite is_monster_type_iff. split.
  - intros [->|Hin]; [now left|right; exact Hin].
  - intros [<-|Hin]; [now left|right; exact Hin].
Qed.

(* ================================================================= *)
(** ** Further properties of the scans *)

(** The records of a scan with lower bounds [mq] and [rq] have the shape
    [record_ok] describes. *)
Lemma scan_buffer_record_ok NAME mq rq data :
  Forall (record_ok NAME mq rq)
         (scan_buffer (monster_candidate NAME mq) (random_candidate rq) data).
Proof.
  apply Forall_forall. intros r Hin. unfold record_ok.
  apply In_scan_buffer in Hin as [(p & _ & Hc)|(t & p & Ht & _ & Hc)].
  - apply monster_candidate_Some in Hc as (_ & Hid & Hq & ->). simpl.
    split; [lia|]. left. repeat split; [lia|]. eauto.
  - apply random_candidate_Some in Hc as (_ & Hq & ->). simpl.
    split; [lia|]. right. repeat split; [assumption|lia].
Qed.

(** X6.  Every record a scan returns is well formed: its quantity is at
    most 1000 and at least the lower bound of the scan; a record of
    type 54 carries a creature id inside the name table, and a record of
    any other type has one of the eight random-monster types and no
    creature id. *)
Theorem returned_records_well_formed NAME data :
  Forall (record_ok NAME 0 1) (V1.scan_monsters NAME data) /\
  Forall (record_ok NAME 0 0) (Editor.scan_gzip NAME data) /\
  Forall (record_ok NAME 1 1) (Editor.scan_raw NAME data).
Proof.
  split; [apply scan_buffer_record_ok|].
  split; [apply (scan_buffer_record_ok NAME 0 0)|apply scan_buffer_record_ok].
Qed.

Lemma starts_with_firstn sub data :
  starts_with sub data = true -> firstn (length sub) data = sub.
Proof.
  revert data; induction sub as [|s sub IH]; intros [|d data]; simpl;
    try reflexivity; try discriminate.
  intros H. apply andb_prop in H as [H1 H2].
  apply Byte.byte_dec_bl in H1. subst d. f_equal. now apply IH.
Qed.

(** At an occurrence the bytes of the buffer are those of the tag. *)
Lemma occurs_at_slice tag data p :
  occurs_at tag data p = true -> slice data p (p + length tag) = tag.
Proof.
  unfold occurs_at, slice. intros H. apply andb_prop in H as [_ H].
  replace (p + length tag - p) with (length tag) by lia.
  now apply starts_with_firstn.
Qed.

Lemma random_tag_decodes monster_type :
  In monster_type random_monster_types ->
  from_bytes_le (random_tag monster_type) = monster_type.
Proof.
  intros H. repeat (destruct H as [<-|H]; [reflexivity|]). destruct H.
Qed.

(** X7.  Every record a scan returns is read off the buffer: there is an
    offset [p] with [p + 6 < len(data)] at which the four bytes are the
    little-endian encoding of the record's type; for type 54 the bytes
    at [p+4], [p+5] encode its creature id and those at [p+6], [p+7]
    (inside the buffer) its quantity; for a random monster the bytes at
    [p+4], [p+5] encode its quantity. *)
Theorem returned_record_read_from_buffer NAME mq rq data r :
  In r (scan_buffer (monster_candidate NAME mq) (random_candidate rq) data) ->
  exists p,
    p + 6 < length data /\
    from_bytes_le (slice data p (p + 4)) = type r /\
    ((type r = ID_Monster /\ p + 8 < length data /\
      subtype r = Some (from_bytes_le (slice data (p + 4) (p + 6))) /\
      quantity r = from_bytes_le (slice data (p + 6) (p + 8))) \/
     (type r <> ID_Monster /\ subtype r = None /\
      quantity r = from_bytes_le (slice data (p + 4) (p + 6)))).
Proof.
  intros Hin. apply In_scan_buffer in Hin as [(p & Ho & Hc)|(t & p & Ht & Ho & Hc)].
  - apply monster_candidate_Some in Hc as (Hlen & _ & _ & ->).
    exists p. split; [lia|]. split.
    + apply occurs_at_slice in Ho. simpl in Ho. now rewrite Ho.
    + left. repeat split. exact Hlen.
  - apply random_candidate_Some in Hc as (Hlen & _ & ->).
    exists p. split; [exact Hlen|]. split.
    + apply occurs_at_slice in Ho.
      change (length (random_tag t)) with 4 in Ho. rewrite Ho.
      now apply random_tag_decodes.
    + right. simpl. repeat split.
      intros ->. revert Ht. unfold random_monster_types, ID_Monster. simpl.
      intuition discriminate.
Qed.

Lemma returned_record_read_from_buffer_witness :
  In {| type := 54; subtype := Some 0%N; quantity := 25; disposition := 2 |}
     (scan_buffer (monster_candidate Sample.names 0) (random_candidate 1)
                  Sample.pikemen) /\
  exists p, p + 6 < length Sample.pikemen.
Proof.
  assert (H : In {| type := 54; subtype := Some 0%N; quantity := 25;
                    disposition := 2 |}
                 (scan_buffer (monster_candidate Sample.names 0)
                              (random_candidate 1) Sample.pikemen))
    by (left; reflexivity).
  split; [exact H|].
  destruct (returned_record_read_from_buffer Sample.names 0 1 Sample.pikemen _ H)
    as (p & Hp & _).
  exists p. exact Hp.
Defined.

(** X8.  A buffer of at most eight bytes yields no concrete monster in
    any scan, and one of at most six bytes, the empty one included,
    yields no record at all. *)
Theorem short_buffer_yields_nothing NAME mq rq data :
  length data <= 8 ->
  Forall (fun r => type r <> ID_Monster)
         (scan_buffer (monster_candidate NAME mq) (random_candidate rq) data) /\
  (length data <= 6 ->
   scan_buffer (monster_candidate NAME mq) (random_candidate rq) data = []).
Proof.
  intros Hlen. split.
  - apply Forall_forall. intros r Hin Ht.
    apply In_scan_buffer in Hin as [(p & _ & Hc)|(t & p & Hin & _ & Hc)].
    + apply monster_candidate_Some in Hc as (Hp & _). lia.
    + apply random_candidate_Some in Hc as (_ & _ & ->). simpl in Ht.
      subst t. revert Hin. unfold random_monster_types, ID_Monster. simpl.
      intuition discriminate.
  - intros Hlen6.
    destruct (scan_buffer _ _ data) as [|r l] eqn:E; [reflexivity|].
    assert (Hin : In r (scan_buffer (monster_candidate NAME mq)
                                    (random_candidate rq) data))
      by (rewrite E; now left).
    apply In_scan_buffer in Hin as [(p & _ & Hc)|(t & p & _ & _ & Hc)].
    + apply monster_candidate_Some in Hc as (Hp & _). lia.
    + apply random_candidate_Some in Hc as (Hp & _). lia.
Qed.

Lemma short_buffer_yields_nothing_witness :
  length Sample.truncated <= 8 /\
  Forall (fun r => type r <> ID_Monster)
         (scan_buffer (monster_candidate Sample.names 0) (random_candidate 1)
                      Sample.truncated).
Proof.
  assert (H : length Sample.truncated <= 8) by (simpl; lia).
  split; [exact H|].
  apply (short_buffer_yields_nothing Sample.names 0 1 Sample.truncated H).
Defined.

(** X9.  A random-monster tag of one of the eight types at offset [p],
    followed inside the buffer by a quantity between 1 and 1000, yields
    exactly one record at that offset, of that type and quantity; the
    record is returned by the V1 script and by both branches of
    [RajanHoAEditor.py]. *)
Theorem well_formed_random_monster_found NAME data monster_type p :
  In monster_type random_monster_types ->
  occurs_at (random_tag monster_type) data p = true ->
  p + 6 < length data ->
  (1 <= decoded_creature_id data p <= 1000)%N ->
  let r := {| type := monster_type; subtype := None;
              quantity := decoded_creature_id data p; disposition := 2 |} in
  at_offset p (scan_trace (random_candidate 1 monster_type)
                          (random_tag monster_type) data) = [(p, r)] /\
  In r (V1.scan_monsters NAME data) /\
  In r (Editor.scan_gzip NAME data) /\
  In r (Editor.scan_raw NAME data).
Proof.
  intros Ht Ho Hlen Hq r.
  assert (Hc : forall rq, (rq <= 1)%N ->
                 random_candidate rq monster_type data p = Some r)
    by (intros rq Hrq; apply random_candidate_Some; repeat split; auto; lia).
  split; [|repeat split].
  - rewrite at_offset_trace by apply random_tag_nonempty.
    rewrite Ho, Hc by lia. reflexivity.
  - apply In_scan_buffer. right. exists monster_type, p. auto using N.le_refl.
  - apply In_scan_buffer. right. exists monster_type, p.
    repeat split; auto. apply Hc. lia.
  - apply In_scan_buffer. right. exists monster_type, p. auto using N.le_refl.
Qed.

Lemma well_formed_random_monster_found_witness :
  In 71%N random_monster_types /\
  occurs_at (random_tag 71) Sample.random_then_concrete 0 = true /\
  0 + 6 < length Sample.random_then_concrete /\
  (1 <= decoded_creature_id Sample.random_then_concrete 0 <= 1000)%N /\
  In {| type := 71; subtype := None; quantity := 12; disposition := 2 |}
     (V1.scan_monsters Sample.names Sample.random_then_concrete).
Proof.
  assert (H1 : In 71%N random_monster_types) by (left; reflexivity).
  assert (H2 : 0 + 6 < length Sample.random_then_concrete) by (simpl; lia).
  assert (H3 : (1 <= decoded_creature_id Sample.random_then_concrete 0 <= 1000)%N)
    by (split; vm_compute; discriminate).
  repeat split; try assumption; try apply H3.
  apply (well_formed_random_monster_found Sample.names
           Sample.random_then_concrete 71 0 H1 eq_refl H2 H3).
Defined.

Lemma filter_flat_map {A B} (f : B -> bool) (g : A -> list B) l :
  filter f (flat_map g l) = flat_map (fun x => filter f (g x)) l.
Proof.
  induction l as [|x l IH]; simpl; [reflexivity|].
  now rewrite filter_app, IH.
Qed.

Lemma flat_map_ext_in {A B} (f g : A -> list B) l :
  (forall x, In x l -> f x = g x) -> flat_map f l = flat_map g l.
Proof.
  induction l as [|x l IH]; intros H; simpl; [reflexivity|].
  rewrite H by now left. f_equal. apply IH. intros; apply H; now right.
Qed.

Lemma random_pass_occurrences (rcand : N -> bytes -> nat -> option MonsterRecord)
      data types monsters :
  fold_left
    (fun monsters monster_type =>
       scan (rcand monster_type) (to_bytes_le 4 monster_type) data monsters)
    types monsters =
  monsters ++
  flat_map (fun monster_type =>
              flat_map (fun p => opt_list (rcand monster_type data p))
                       (occurrences (random_tag monster_type) data 0)) types.
Proof.
  revert monsters; induction types as [|t types IH]; intros monsters.
  - simpl. now rewrite app_nil_r.
  - cbn [fold_left flat_map]. rewrite IH.
    change (to_bytes_le 4 t) with (random_tag t).
    rewrite (scan_occurrences _ _ (random_tag_nonempty t)).
    now rewrite app_assoc.
Qed.

(** The returned list in terms of the occurrences of the nine tags. *)
Lemma scan_buffer_occurrences mcand rcand data :
  scan_buffer mcand rcand data =
  flat_map (fun p => opt_list (mcand data p))
           (occurrences monster_type_bytes data 0) ++
  flat_map (fun monster_type =>
              flat_map (fun p => opt_list (rcand monster_type data p))
                       (occurrences (random_tag monster_type) data 0))
           random_monster_types.
Proof.
  unfold scan_buffer.
  rewrite random_pass_occurrences.
  now rewrite (scan_occurrences _ _ monster_tag_nonempty).
Qed.

(** Keeping the records that pass [keep] is scanning with candidates
    that decode to nothing where [keep] fails. *)
Lemma filter_scan_buffer keep mcand mcand' rcand rcand' data :
  (forall p, filter keep (opt_list (mcand data p)) = opt_list (mcand' data p)) ->
  (forall t p, In t random_monster_types ->
               filter keep (opt_list (rcand t data p)) =
               opt_list (rcand' t data p)) ->
  filter keep (scan_buffer mcand rcand data) = scan_buffer mcand' rcand' data.
Proof.
  intros Hm Hr. rewrite !scan_buffer_occurrences, filter_app, !filter_flat_map.
  f_equal.
  - apply flat_map_ext. intros p. apply Hm.
  - apply flat_map_ext_in. intros t Ht. rewrite filter_flat_map.
    apply flat_map_ext. intros p. now apply Hr.
Qed.

Lemma monster_candidate_qmin NAME qmin data p :
  monster_candidate NAME qmin data p =
  match monster_candidate NAME 0 data p with
  | Some r => if (qmin <=? quantity r)%N then Some r else None
  | None => None
  end.
Proof.
  unfold monster_candidate.
  destruct (p + 6 <? length data); [|reflexivity].
  destruct (p + 8 <? length data); [|reflexivity].
  rewrite (proj2 (N.leb_le 0 (from_bytes_le (slice data (p + 6) (p + 8))))
                 (N.le_0_l _)).
  destruct (0 <=? _)%N, (_ <? N.of_nat (length NAME))%N,
    (_ <=? 1000)%N; simpl; rewrite ?andb_false_r; try reflexivity.
  now destruct (qmin <=? _)%N.
Qed.

Lemma random_candidate_qmin qmin monster_type data p :
  random_candidate qmin monster_type data p =
  match random_candidate 0 monster_type data p with
  | Some r => if (qmin <=? quantity r)%N then Some r else None
  | None => None
  end.
Proof.
  unfold random_candidate.
  destruct (p + 6 <? length data); [|reflexivity].
  rewrite (proj2 (N.leb_le 0 (from_bytes_le (slice data (p + 4) (p + 6))))
                 (N.le_0_l _)).
  destruct (_ <=? 1000)%N; simpl; rewrite ?andb_false_r; try reflexivity.
  now destruct (qmin <=? _)%N.
Qed.

(** X10.  The three copies of the scan differ by a filter only.  On one
    buffer the raw fallback branch of [RajanHoAEditor.py] returns the
    records of the gzip branch whose quantity is not 0, in the same
    order, and the V1 script returns those that are concrete monsters or
    have a quantity other than 0. *)
Theorem scans_differ_by_quantity_filter NAME data :
  Editor.scan_raw NAME data =
    filter (fun r => (1 <=? quantity r)%N) (Editor.scan_gzip NAME data) /\
  V1.scan_monsters NAME data =
    filter (fun r => (type r =? ID_Monster)%N || (1 <=? quantity r)%N)
           (Editor.scan_gzip NAME data).
Proof.
  unfold Editor.scan_raw, Editor.scan_gzip, V1.scan_monsters. split; symmetry.
  - apply filter_scan_buffer.
    + intros p. rewrite monster_candidate_gzip_eq.
      rewrite (monster_candidate_qmin NAME 1).
      destruct (monster_candidate NAME 0 data p) as [r|]; simpl; [|reflexivity].
      now destruct (1 <=? quantity r)%N.
    + intros t p _. rewrite (random_candidate_qmin 1).
      destruct (random_candidate 0 t data p) as [r|]; simpl; [|reflexivity].
      now destruct (1 <=? quantity r)%N.
  - apply filter_scan_buffer.
    + intros p. rewrite monster_candidate_gzip_eq.
      destruct (monster_candidate NAME 0 data p) as [r|] eqn:E; simpl;
        [|reflexivity].
      apply monster_candidate_Some in E as (_ & _ & _ & ->). reflexivity.
    + intros t p Ht. rewrite (random_candidate_qmin 1).
      destruct (random_candidate 0 t data p) as [r|] eqn:E; simpl;
        [|reflexivity].
      apply random_candidate_Some in E as (_ & _ & ->). simpl.
      replace (t =? ID_Monster)%N with false.
      * simpl. now destruct (1 <=? _)%N.
      * symmetry. apply N.eqb_neq. intros ->. revert Ht.
        unfold random_monster_types, ID_Monster. simpl. intuition discriminate.
Qed.

Lemma starts_with_nth sub data i b :
  starts_with sub data = true ->
  nth_error sub i = Some b -> nth_error data i = Some b.
Proof.
  revert data i; induction sub as [|s sub IH]; intros [|d data] [|i]; simpl;
    try discriminate.
  - intros H [= <-]. apply andb_prop in H as [H _].
    apply Byte.byte_dec_bl in H. now subst.
  - intros H Hi. apply andb_prop in H as [_ H]. eauto.
Qed.

Lemma occurs_at_nth tag data p i b :
  occurs_at tag data p = true ->
  nth_error tag i = Some b -> nth_error data (p + i) = Some b.
Proof.
  unfold occurs_at. intros H Hi. apply andb_prop in H as [_ H].
  rewrite <- nth_error_skipn. eapply starts_with_nth; eauto.
Qed.

(** Each of the nine tags is one byte other than 0 followed by three
    bytes 0. *)
Lemma signature_tag_shape tag :
  In tag signature_tags -> exists b, b <> x00 /\ tag = [b; x00; x00; x00].
Proof.
  intros H. cbv in H.
  repeat (destruct H as [<-|H];
          [eexists; split; [|reflexivity]; discriminate|]).
  destruct H.
Qed.

(** X11.  Matches of the signatures never overlap: of two occurrences of
    tags of the scan, of the same type or not, the later one starts at
    least four bytes after the earlier one, unless both are the same
    occurrence of the same tag. *)
Theorem signature_matches_do_not_overlap tag1 tag2 data p q :
  In tag1 signature_tags -> In tag2 signature_tags ->
  occurs_at tag1 data p = true -> occurs_at tag2 data q = true ->
  p <= q ->
  (p = q /\ tag1 = tag2) \/ p + 4 <= q.
Proof.
  intros H1 H2 Hp Hq Hle.
  apply signature_tag_shape in H1 as (b1 & Hb1 & ->).
  apply signature_tag_shape in H2 as (b2 & Hb2 & ->).
  pose proof (occurs_at_nth _ _ q 0 b2 Hq eq_refl) as Hq0.
  rewrite Nat.add_0_r in Hq0.
  destruct (Nat.eq_dec q p) as [->|Hne].
  - left. split; [reflexivity|].
    pose proof (occurs_at_nth _ _ p 0 b1 Hp eq_refl) as Hp0.
    rewrite Nat.add_0_r in Hp0. congruence.
  - right.
    destruct (Nat.eq_dec q (p + 1)) as [->|N1];
      [pose proof (occurs_at_nth _ _ p 1 x00 Hp eq_refl); congruence|].
    destruct (Nat.eq_dec q (p + 2)) as [->|N2];
      [pose proof (occurs_at_nth _ _ p 2 x00 Hp eq_refl); congruence|].
    destruct (Nat.eq_dec q (p + 3)) as [->|N3];
      [pose proof (occurs_at_nth _ _ p 3 x00 Hp eq_refl); congruence|].
    lia.
Qed.

Lemma signature_matches_do_not_overlap_witness :
  In monster_type_bytes signature_tags /\
  In (random_tag 71) signature_tags /\
  occurs_at (random_tag 71) Sample.random_then_concrete 0 = true /\
  occurs_at monster_type_bytes Sample.random_then_concrete 7 = true /\
  0 <= 7 /\
  ((0 = 7 /\ random_tag 71 = monster_type_bytes) \/ 0 + 4 <= 7).
Proof.
  assert (H1 : In monster_type_bytes signature_tags) by (left; reflexivity).
  assert (H2 : In (random_tag 71) signature_tags) by (right; left; reflexivity).
  split; [exact H1|]. split; [exact H2|].
  split; [reflexivity|]. split; [reflexivity|]. split; [lia|].
  apply (signature_matches_do_not_overlap (random_tag 71) monster_type_bytes
           Sample.random_then_concrete 0 7 H2 H1 eq_refl eq_refl).
  lia.
Defined.

Lemma StronglySorted_lt_NoDup l : StronglySorted lt l -> NoDup l.
Proof.
  induction 1 as [|x l Hs IH Hall]; constructor; [|exact IH].
  intros Hin. rewrite Forall_forall in Hall. apply Hall in Hin. lia.
Qed.

Lemma signature_tag_nonempty tag : In tag signature_tags -> tag <> [].
Proof. intros H. apply signature_tag_shape in H as (b & _ & ->). discriminate. Qed.

Lemma trace_offset_occurs {A} (cand : bytes -> nat -> option A) tag data p :
  tag <> [] -> In p (map fst (scan_trace cand tag data)) ->
  occurs_at tag data p = true /\ exists r, cand data p = Some r.
Proof.
  intros Hne Hin. apply in_map_iff in Hin as ((q & r) & <- & Hin).
  apply scan_trace_In in Hin as [Ho Hc]; eauto.
Qed.

(** The offsets of the traces of different signature tags, put one after
    the other, hold no offset twice. *)
Lemma trace_offsets_NoDup {A}
      (scans : list (bytes * (bytes -> nat -> option A))) data :
  NoDup (map fst scans) ->
  (forall x, In x scans -> In (fst x) signature_tags) ->
  NoDup (flat_map (fun x => map fst (scan_trace (snd x) (fst x) data)) scans).
Proof.
  induction scans as [|[tag cand] scans IH]; intros Hnd Hsig; simpl;
    [constructor|].
  inversion Hnd as [|? ? Hnotin Hnd']; subst.
  assert (Htag : In tag signature_tags) by (apply (Hsig (tag, cand)); now left).
  apply NoDup_app.
  - apply StronglySorted_lt_NoDup, scan_trace_sorted.
    now apply signature_tag_nonempty.
  - apply IH; [exact Hnd'|]. intros x Hx. apply Hsig. now right.
  - intros p Hp Hp'.
    apply trace_offset_occurs in Hp as [Ho _];
      [|now apply signature_tag_nonempty].
    apply in_flat_map in Hp' as ((tag' & cand') & Hin & Hp').
    assert (Htag' : In tag' signature_tags) by (apply (Hsig (tag', cand')); now right).
    apply trace_offset_occurs in Hp' as [Ho' _];
      [|now apply signature_tag_nonempty].
    assert (tag = tag') as ->.
    { apply signature_tag_shape in Htag as (b & _ & ->).
      apply signature_tag_shape in Htag' as (b' & _ & ->).
      pose proof (occurs_at_nth _ _ p 0 b Ho eq_refl) as H0.
      pose proof (occurs_at_nth _ _ p 0 b' Ho' eq_refl) as H0'.
      congruence. }
    apply Hnotin. apply in_map_iff. exists (tag', cand'). auto.
Qed.

Lemma accepted_offsets_NoDup mcand rcand data :
  NoDup (accepted_offsets mcand rcand data).
Proof.
  pose (scans := (monster_type_bytes, mcand) ::
                 map (fun t => (random_tag t, rcand t)) random_monster_types).
  assert (E : accepted_offsets mcand rcand data =
              flat_map (fun x => map fst (scan_trace (snd x) (fst x) data)) scans).
  { unfold accepted_offsets, signature_groups, scans, random_monster_types.
    cbn [map concat flat_map fst snd]. now rewrite !map_app. }
  rewrite E. apply trace_offsets_NoDup.
  - unfold scans, random_monster_types. cbv.
    repeat (constructor; [simpl; intuition discriminate|]). constructor.
  - intros x Hx. unfold scans in Hx. destruct Hx as [<-|Hx]; [now left|].
    apply in_map_iff in Hx as (t & <- & Ht). right.
    change (In (random_tag t) (map random_tag random_monster_types)).
    now apply in_map.
Qed.

(** X12.  A scan returns at most [len(data) - 6] records: every record
    comes from an offset of its own, at least seven bytes before the end
    of the buffer. *)
Theorem record_count_bound NAME mq rq data :
  length (scan_buffer (monster_candidate NAME mq) (random_candidate rq) data)
  <= length data - 6.
Proof.
  rewrite scan_buffer_groups, length_map.
  rewrite <- (length_map fst).
  fold (accepted_offsets (monster_candidate NAME mq) (random_candidate rq) data).
  rewrite <- (length_seq (length data - 6) 0).
  apply NoDup_incl_length; [apply accepted_offsets_NoDup|].
  intros p Hp. apply in_seq.
  unfold accepted_offsets, signature_groups in Hp.
  rewrite concat_cons, map_app in Hp. apply in_app_or in Hp as [Hp|Hp].
  - apply trace_offset_occurs in Hp as [_ (r & Hc)];
      [|apply monster_tag_nonempty].
    apply monster_candidate_Some in Hc as (Hlen & _). lia.
  - apply in_map_iff in Hp as ((q & r) & <- & Hin).
    apply in_concat in Hin as (g & Hg & Hin).
    apply in_map_iff in Hg as (t & <- & _).
    apply scan_trace_In in Hin as [_ Hc]; [|apply random_tag_nonempty].
    apply random_candidate_Some in Hc as (Hlen & _). simpl. lia.
Qed.

(* ================================================================= *)
(** ** Properties of the callers *)

(** The name lookup of the callers cannot fail on a well-formed record,
    and gives the entry of the name table, not the fallback. *)
Lemma creature_name_ok NAME mq rq r :
  record_ok NAME mq rq r -> creature_name NAME r = Some (display_name NAME r).
Proof.
  intros (_ & [(Ht & _ & id & Hs & Hid)|(Ht & _ & Hs)]);
    unfold creature_name, display_name; rewrite Hs.
  - rewrite Ht, N.eqb_refl. apply N.ltb_lt in Hid. now rewrite Hid.
  - replace (type r =? ID_Monster)%N with false; [reflexivity|].
    symmetry. apply N.eqb_neq. intros E. rewrite E in Ht. revert Ht.
    unfold random_monster_types, ID_Monster. simpl. intuition discriminate.
Qed.

Lemma print_monsters_blocks NAME mq rq i monster_objects :
  Forall (record_ok NAME mq rq) monster_objects ->
  V1.print_monsters NAME i monster_objects =
  flat_map (monster_block NAME)
           (combine (seq i (length monster_objects)) monster_objects).
Proof.
  intros H. revert i. induction H as [|r l Hr Hl IH]; intros i; simpl;
    [reflexivity|].
  rewrite (creature_name_ok NAME mq rq r Hr), IH. reflexivity.
Qed.

(** X13.  When the container loads and at least one record is found,
    [GetMonsterProperty] prints, after its first line, four lines per
    record, in the order of the returned list and numbered from 1: the
    number, the name (the entry of the creature-name table for a
    concrete monster, the label of the type for a random one), the
    disposition Aggressive and an empty line.  Its exception handler is
    never entered. *)
Theorem GetMonsterProperty_prints_every_record NAME w filename data :
  gzip_read w filename = Some data ->
  V1.scan_monsters NAME data <> [] ->
  V1.GetMonsterProperty NAME w filename =
    L_parsing filename ::
    flat_map (monster_block NAME) (numbered (V1.scan_monsters NAME data)) /\
  ~ In L_error (V1.GetMonsterProperty NAME w filename).
Proof.
  intros Hg Hne.
  assert (E : V1.GetMonsterProperty NAME w filename =
              L_parsing filename ::
              flat_map (monster_block NAME)
                       (numbered (V1.scan_monsters NAME data))).
  { unfold V1.GetMonsterProperty, V1.parse_map_file. rewrite Hg.
    pose proof (scan_buffer_record_ok NAME 0 1 data) as Hok.
    fold (V1.scan_monsters NAME data) in Hok.
    destruct (V1.scan_monsters NAME data) as [|r l] eqn:El; [congruence|].
    cbn [app]. f_equal. now apply (print_monsters_blocks NAME 0 1). }
  split; [exact E|]. rewrite E. intros [H|H]; [discriminate|].
  apply in_flat_map in H as (e & _ & H). unfold monster_block in H.
  simpl in H. intuition discriminate.
Qed.

Lemma GetMonsterProperty_prints_every_record_witness :
  gzip_read (Sample.gzip_world "Do.h3m" Sample.random_then_concrete) "Do.h3m"
    = Some Sample.random_then_concrete /\
  V1.scan_monsters Sample.names Sample.random_then_concrete <> [] /\
  V1.GetMonsterProperty Sample.names
    (Sample.gzip_world "Do.h3m" Sample.random_then_concrete) "Do.h3m" =
  [L_parsing "Do.h3m";
   L_monster_no 1; L_name "Archer"; L_disposition_aggressive; L_blank;
   L_monster_no 2; L_name "Random Monster (Type 71)";
   L_disposition_aggressive; L_blank].
Proof.
  assert (H : V1.scan_monsters Sample.names Sample.random_then_concrete <> [])
    by discriminate.
  split; [reflexivity|]. split; [exact H|].
  destruct (GetMonsterProperty_prints_every_record Sample.names
              (Sample.gzip_world "Do.h3m" Sample.random_then_concrete) "Do.h3m"
              Sample.random_then_concrete eq_refl H) as [E _].
  exact E.
Defined.

(** X14.  [SetMonsterProperty] writes at most one file; it writes
    exactly when the parse found a record and [Do2.h3m] can be opened
    for writing, and it prints its line of success exactly when it
    wrote. *)
Theorem SetMonsterProperty_outcome NAME w filename :
  let found := fst (snd (V1.parse_map_file NAME w filename)) in
  let out := fst (V1.SetMonsterProperty NAME w filename) in
  let writes := snd (V1.SetMonsterProperty NAME w filename) in
  length writes <= 1 /\
  (writes <> [] <-> found <> [] /\ can_write w "Do2.h3m" = true) /\
  (In L_updated out <-> writes <> []).
Proof.
  unfold V1.SetMonsterProperty, V1.parse_map_file.
  destruct (gzip_read w filename) as [data|]; simpl.
  - destruct (V1.scan_monsters NAME data) as [|r l]; simpl.
    + repeat split; try lia; try tauto; intuition discriminate.
    + destruct (can_write w "Do2.h3m"); simpl.
      * repeat split; try lia; try discriminate; auto.
      * repeat split; try lia; try tauto; try discriminate;
          intuition discriminate.
  - repeat split; try lia; try tauto; intuition discriminate.
Qed.

(** What [main] needs of a record to print it: a creature id when its
    type is [Monster], the disposition Aggressive and a quantity of at
    most 1000. *)
Lemma record_ok_printable NAME mq rq r :
  record_ok NAME mq rq r ->
  disposition r = Disposition.Aggressive ->
  (subtype r <> None \/ type r <> ObjectID.Monster) /\
  disposition r = Disposition.Aggressive /\ (quantity r <= 1000)%N.
Proof.
  intros (Hq & [(_ & _ & id & Hs & _)|(Ht & _ & _)]) Hd; repeat split; auto.
  - left. congruence.
  - right. intros E. rewrite E in Ht. revert Ht.
    unfold random_monster_types, ObjectID.Monster, ID_Monster. simpl.
    intuition discriminate.
Qed.

Section MainFacts.
Variable NAME : list string.
Variable AI_VALUE : list Z.
Variables Compliant Friendly Hostile Savage Precise : N.
Variables Pikeman Archer Griffin Swordsman Angel Black_Dragon : N.
Variable w : World.

Let printable (r : MonsterRecord) : Prop :=
  (subtype r <> None \/ type r <> ObjectID.Monster) /\
  disposition r = Disposition.Aggressive /\ (quantity r <= 1000)%N.

Let print_monsters :=
  EditorMain.print_monsters NAME AI_VALUE Compliant Friendly Hostile Savage Precise.

Lemma name_and_level_printable r :
  printable r ->
  exists name level,
    EditorMain.name_and_level NAME AI_VALUE r = Some (name, level) /\
    forall l, level = EditorMain.Level_of l -> (1 <= l <= 7)%Z.
Proof.
  intros ([Hs|Ht] & _); unfold EditorMain.name_and_level.
  - destruct (type r =? ObjectID.Monster)%N.
    + destruct (subtype r) as [id|]; [|congruence].
      do 2 eexists. split; [reflexivity|]. intros l [= <-].
      assert (H0 : (0 <= Z.of_N id)%Z) by lia.
      revert H0. generalize (Z.of_N id). intros z H0.
      level_cases; try lia; Z.div_mod_to_equations; lia.
    + do 2 eexists. split; [reflexivity|]. discriminate.
  - apply N.eqb_neq in Ht. rewrite Ht.
    do 2 eexists. split; [reflexivity|]. discriminate.
Qed.

Lemma print_monsters_lines i monster_objects line :
  Forall printable monster_objects ->
  In line (print_monsters i monster_objects) ->
  line <> EditorMain.P_error /\
  (forall l, line = EditorMain.P_level (EditorMain.Level_of l) ->
             (1 <= l <= 7)%Z) /\
  (forall q, line = EditorMain.P_count q -> (q <= 1000)%N) /\
  (forall s, line = EditorMain.P_disposition s ->
             s = get_disposition_name Compliant Friendly Hostile Savage Precise
                                      Disposition.Aggressive).
Proof.
  intros H. revert i. induction H as [|r l Hr Hl IH]; intros i; [intros []|].
  unfold print_monsters in IH |- *. cbn [EditorMain.print_monsters].
  destruct (name_and_level_printable r Hr) as (name & level & -> & Hlevel).
  destruct Hr as (_ & Hd & Hq). rewrite Hd.
  intros [<-|[<-|[<-|[<-|[<-|[<-|Hin]]]]]];
    [| | | | | |now apply (IH (S i))];
    (split; [discriminate|]); (split; [|split]);
    try (intros x Hx; discriminate Hx).
  - intros lv [= ->]. now apply Hlevel.
  - now intros q [= <-].
  - now intros s [= <-].
Qed.

Lemma print_monsters_count i monster_objects :
  Forall printable monster_objects ->
  length (filter is_monster_no (print_monsters i monster_objects)) =
  length monster_objects.
Proof.
  intros H. revert i. induction H as [|r l Hr Hl IH]; intros i; [reflexivity|].
  unfold print_monsters in IH |- *. cbn [EditorMain.print_monsters].
  destruct (name_and_level_printable r Hr) as (name & level & -> & _).
  simpl. now rewrite IH.
Qed.

Lemma representative_printable :
  Forall printable
         (EditorMain.representative Pikeman Archer Griffin Swordsman Angel
                                    Black_Dragon).
Proof.
  unfold EditorMain.representative, EditorMain.concrete, printable.
  repeat (apply Forall_cons; [split; [|split; [reflexivity|simpl; lia]]|]);
    [left| left| left| left| left| right| left| constructor];
    simpl; discriminate.
Qed.

Lemma parse_map_file_printable filename :
  Forall printable (Editor.parse_map_file NAME w filename).
Proof.
  assert (H : forall mq rq data,
             Forall (record_ok NAME mq rq)
                    (scan_buffer (monster_candidate NAME mq)
                                 (random_candidate rq) data) ->
             Forall printable
                    (scan_buffer (monster_candidate NAME mq)
                                 (random_candidate rq) data)).
  { intros mq rq data Hok. apply Forall_forall. intros r Hin.
    rewrite Forall_forall in Hok. eapply record_ok_printable; [now apply Hok|].
    pose proof (scan_buffer_disposition NAME mq rq data) as Hd.
    rewrite Forall_forall in Hd. now apply Hd. }
  unfold Editor.parse_map_file.
  destruct (gzip_read w filename) as [data|].
  - apply (H 0%N 0%N). apply scan_buffer_record_ok.
  - destruct (raw_read w filename) as [data|]; [|constructor].
    apply H. apply scan_buffer_record_ok.
Qed.

Let shown :=
  EditorMain.monsters_shown NAME Pikeman Archer Griffin Swordsman Angel
                            Black_Dragon w.

Let output :=
  EditorMain.main NAME AI_VALUE Compliant Friendly Hostile Savage Precise
                  Pikeman Archer Griffin Swordsman Angel Black_Dragon w.

Lemma shown_printable : Forall printable shown.
Proof.
  unfold shown, EditorMain.monsters_shown.
  pose proof (parse_map_file_printable "Do.h3m") as H.
  destruct (Editor.parse_map_file NAME w "Do.h3m");
    [apply representative_printable|exact H].
Qed.

Lemma output_shape :
  exists intro,
    output = EditorMain.P_title :: EditorMain.P_rule ::
             intro ++ EditorMain.P_total (length shown) ::
             print_monsters 1 shown /\
    (intro = [] \/
     intro = [EditorMain.P_no_monsters; EditorMain.P_representative]).
Proof.
  unfold output, shown, print_monsters, EditorMain.main,
    EditorMain.monsters_shown.
  destruct (Editor.parse_map_file NAME w "Do.h3m").
  - eexists [_; _]. split; [reflexivity|now right].
  - exists []. split; [reflexivity|now left].
Qed.

(** The two ways [main] can go. *)
Lemma output_cases :
  (Editor.parse_map_file NAME w "Do.h3m" = [] /\
   shown = EditorMain.representative Pikeman Archer Griffin Swordsman Angel
                                     Black_Dragon /\
   output = EditorMain.P_title :: EditorMain.P_rule ::
            EditorMain.P_no_monsters :: EditorMain.P_representative ::
            EditorMain.P_total (length shown) :: print_monsters 1 shown) \/
  (Editor.parse_map_file NAME w "Do.h3m" <> [] /\
   shown = Editor.parse_map_file NAME w "Do.h3m" /\
   output = EditorMain.P_title :: EditorMain.P_rule ::
            EditorMain.P_total (length shown) :: print_monsters 1 shown).
Proof.
  unfold output, shown, print_monsters, EditorMain.main,
    EditorMain.monsters_shown.
  destruct (Editor.parse_map_file NAME w "Do.h3m").
  - left. repeat split.
  - right. repeat split. discriminate.
Qed.

(** The lines of the monster blocks are none of the lines [main] prints
    before them. *)
Lemma print_monsters_no_intro i monster_objects line :
  In line (print_monsters i monster_objects) ->
  line <> EditorMain.P_representative.
Proof.
  revert i. induction monster_objects as [|r l IH]; intros i; [intros []|].
  unfold print_monsters in IH |- *. cbn [EditorMain.print_monsters].
  destruct (EditorMain.name_and_level NAME AI_VALUE r) as [[n lv]|].
  - intros [<-|[<-|[<-|[<-|[<-|[<-|Hin]]]]]]; try discriminate.
    now apply (IH (S i)).
  - intros [<-|[<-|[]]]; discriminate.
Qed.
End MainFacts.

(** X15.  [main] of [RajanHoAEditor.py] always has monsters to show and
    never enters its exception handler: it prints a total that is not
    0 and as many numbered monster blocks as the total says.  It falls
    back on its seven representative monsters exactly when
    [parse_map_file] returned no record, be it for a container that
    could not be loaded or for a buffer without accepted candidates. *)
Theorem main_always_reports NAME AI_VALUE Compliant Friendly Hostile Savage
        Precise Pikeman Archer Griffin Swordsman Angel Black_Dragon w :
  let shown :=
    EditorMain.monsters_shown NAME Pikeman Archer Griffin Swordsman Angel
                              Black_Dragon w in
  let out :=
    EditorMain.main NAME AI_VALUE Compliant Friendly Hostile Savage Precise
                    Pikeman Archer Griffin Swordsman Angel Black_Dragon w in
  ~ In EditorMain.P_error out /\
  0 < length shown /\
  In (EditorMain.P_total (length shown)) out /\
  length (filter is_monster_no out) = length shown /\
  (In EditorMain.P_representative out <->
   Editor.parse_map_file NAME w "Do.h3m" = []) /\
  (Editor.parse_map_file NAME w "Do.h3m" = [] -> length shown = 7).
Proof.
  intros shown out.
  assert (Hok := shown_printable NAME Pikeman Archer Griffin Swordsman Angel
                                 Black_Dragon w).
  assert (Hcount :
            length (filter is_monster_no
                      (EditorMain.print_monsters NAME AI_VALUE Compliant Friendly
                         Hostile Savage Precise 1 shown)) = length shown)
    by (apply print_monsters_count; exact Hok).
  assert (Hlines : forall line,
             In line (EditorMain.print_monsters NAME AI_VALUE Compliant Friendly
                        Hostile Savage Precise 1 shown) ->
             line <> EditorMain.P_error /\
             line <> EditorMain.P_representative).
  { intros line Hin. split.
    - eapply print_monsters_lines; eauto.
    - eapply print_monsters_no_intro; eauto. }
  destruct (output_cases NAME AI_VALUE Compliant Friendly Hostile Savage Precise
              Pikeman Archer Griffin Swordsman Angel Black_Dragon w)
    as [(Hp & Hs & Ho)|(Hp & Hs & Ho)];
    fold shown in Hs, Ho; fold out in Ho; rewrite Ho.
  - split; [|split; [|split; [|split; [|split]]]].
    + intros [H|[H|[H|[H|[H|H]]]]]; try discriminate.
      apply Hlines in H. tauto.
    + rewrite Hs. cbn [EditorMain.representative length]. lia.
    + do 4 right. left. reflexivity.
    + cbn [filter is_monster_no]. exact Hcount.
    + split; [intros _; exact Hp|]. intros _. do 3 right. left. reflexivity.
    + intros _. rewrite Hs. reflexivity.
  - split; [|split; [|split; [|split; [|split]]]].
    + intros [H|[H|[H|H]]]; try discriminate.
      apply Hlines in H. tauto.
    + rewrite Hs. destruct (Editor.parse_map_file NAME w "Do.h3m");
        [congruence|cbn [length]; lia].
    + do 2 right. left. reflexivity.
    + cbn [filter is_monster_no]. exact Hcount.
    + split; [|intros Hn; contradiction].
      intros [H|[H|[H|H]]]; try discriminate.
      apply Hlines in H. tauto.
    + intros Hn. contradiction.
Qed.

(** X16.  Provided none of the later members [Hostile], [Savage] and
    [Precise] of [Disposition] has the code of [Aggressive], every
    monster block of [main] gives the disposition as Aggressive, every
    level printed as a number lies between 1 and 7, and every count is
    at most 1000. *)
Theorem main_report_values NAME AI_VALUE Compliant Friendly Hostile Savage
        Precise Pikeman Archer Griffin Swordsman Angel Black_Dragon w line :
  ~ In Disposition.Aggressive [Hostile; Savage; Precise] ->
  In line (EditorMain.main NAME AI_VALUE Compliant Friendly Hostile Savage
             Precise Pikeman Archer Griffin Swordsman Angel Black_Dragon w) ->
  (forall name, line = EditorMain.P_disposition name ->
                name = "Aggressive"%string) /\
  (forall level, line = EditorMain.P_level (EditorMain.Level_of level) ->
                 (1 <= level <= 7)%Z) /\
  (forall count, line = EditorMain.P_count count -> (count <= 1000)%N).
Proof.
  intros Hcodes Hin.
  assert (Hname : get_disposition_name Compliant Friendly Hostile Savage Precise
                    Disposition.Aggressive = "Aggressive"%string).
  { unfold get_disposition_name.
    apply (dict_get_present [_; _]). simpl in *. tauto. }
  destruct (output_shape NAME AI_VALUE Compliant Friendly Hostile Savage Precise
              Pikeman Archer Griffin Swordsman Angel Black_Dragon w)
    as (intro & E & Hintro).
  rewrite E in Hin.
  assert (Hcase :
            In line (EditorMain.print_monsters NAME AI_VALUE Compliant Friendly
                       Hostile Savage Precise 1
                       (EditorMain.monsters_shown NAME Pikeman Archer Griffin
                          Swordsman Angel Black_Dragon w)) \/
            ((forall name, line <> EditorMain.P_disposition name) /\
             (forall level, line <> EditorMain.P_level level) /\
             (forall count, line <> EditorMain.P_count count))).
  { destruct Hin as [<-|[<-|Hin]];
      [right; repeat split; intros x Hx; discriminate Hx..|].
    apply in_app_or in Hin as [Hin|[<-|Hin]].
    - right. destruct Hintro as [->| ->]; [destruct Hin|].
      destruct Hin as [<-|[<-|[]]]; repeat split; intros x Hx; discriminate Hx.
    - right. repeat split; intros x Hx; discriminate Hx.
    - now left. }
  destruct Hcase as [Hp|(H1 & H2 & H3)].
  - apply print_monsters_lines in Hp as (_ & Hl & Hq & Hd);
      [|apply shown_printable].
    split; [|split].
    + intros name Hline. rewrite <- Hname. now apply Hd.
    + exact Hl.
    + exact Hq.
  - split; [|split]; intros x Hx; exfalso.
    + now apply (H1 x).
    + now apply (H2 (EditorMain.Level_of x)).
    + now apply (H3 x).
Qed.

Lemma main_report_values_witness :
  ~ In Disposition.Aggressive [3; 4; 5]%N /\
  In (EditorMain.P_disposition
        (get_disposition_name 0 1 3 4 5 Disposition.Aggressive))
     (EditorMain.main Sample.names [] 0 1 3 4 5 0 2 4 6 12 83
                      Sample.empty_world) /\
  get_disposition_name 0 1 3 4 5 Disposition.Aggressive = "Aggressive"%string.
Proof.
  assert (H1 : ~ In Disposition.Aggressive [3; 4; 5]%N)
    by (simpl; intuition discriminate).
  assert (H2 : In (EditorMain.P_disposition
                     (get_disposition_name 0 1 3 4 5 Disposition.Aggressive))
                  (EditorMain.main Sample.names [] 0 1 3 4 5 0 2 4 6 12 83
                                   Sample.empty_world))
    by (do 9 right; left; reflexivity).
  split; [exact H1|]. split; [exact H2|].
  destruct (main_report_values Sample.names [] 0 1 3 4 5 0 2 4 6 12 83
              Sample.empty_world _ H1 H2) as (Hd & _).
  now apply Hd.
Defined.

(* ================================================================= *)
(** ** The stored disposition byte *)












